(** * voice-network: the fuzzy contact retrieval of [agent.py]

    A shallow embedding of [ContactSearchAssistant._preprocess_query],
    [_search_contacts], [_format_contact_response] and
    [_search_contacts_tool], and the properties of them that the
    specification states.

    Conventions of the model.
    - A Python [str] is a [string] whose characters are the code points
      below 256; [isspace] and [lower] are Python's on that range.
    - A Python [dict] read only through [get] is a [gmap]; a [dict] whose
      iteration order is observed is an association list in insertion
      order; a [set] is a [gset].
    - A similarity score is a rational number, and [round(x, 3)] rounds
      half to even to the nearest thousandth.
    - The embedding service and the vector index are functions that may
      fail; every call to them is recorded in a trace. *)

From Stdlib Require Import ZArith QArith Qround Lia Lqa List Bool Ascii String.
From Stdlib Require Import Permutation Sorted DecimalString.
From stdpp Require Import base decidable option list gmap strings.

Local Close Scope Q_scope.
Local Open Scope nat_scope.
Local Open Scope stdpp_scope.

#[local] Arguments String.append : simpl nomatch.

(** ** Python string operations *)

Module PyStr.

(** [c.isspace()] for a code point below 256. *)
Definition is_space (c : ascii) : bool :=
  let n := N_of_ascii c in
  (((9 <=? n) && (n <=? 13)) || ((28 <=? n) && (n <=? 32))
   || (n =? 133) || (n =? 160))%N.

(** [c.lower()] for a code point below 256. *)
Definition lower_char (c : ascii) : ascii :=
  let n := N_of_ascii c in
  if (((65 <=? n) && (n <=? 90))
      || ((192 <=? n) && (n <=? 222) && negb (n =? 215)))%N
  then ascii_of_N (n + 32) else c.

(** [s.lower()] *)
Fixpoint lower (s : string) : string :=
  match s with
  | EmptyString => EmptyString
  | String c s' => String (lower_char c) (lower s')
  end.

Definition is_empty (s : string) : bool :=
  match s with EmptyString => true | String _ _ => false end.

Fixpoint all_space (s : string) : bool :=
  match s with
  | EmptyString => true
  | String c s' => is_space c && all_space s'
  end.

(** [s.lstrip()], [s.rstrip()], [s.strip()] *)
Fixpoint lstrip (s : string) : string :=
  match s with
  | EmptyString => EmptyString
  | String c s' => if is_space c then lstrip s' else s
  end.

Fixpoint rstrip (s : string) : string :=
  match s with
  | EmptyString => EmptyString
  | String c s' =>
      let r := rstrip s' in
      if is_empty r && is_space c then EmptyString else String c r
  end.

Definition strip (s : string) : string := rstrip (lstrip s).

(** [s.split()]: the maximal runs of non-whitespace characters. [cur] is
    the run being read. *)
Fixpoint split_from (s cur : string) : list string :=
  match s with
  | EmptyString => if is_empty cur then [] else [cur]
  | String c s' =>
      if is_space c
      then (if is_empty cur then split_from s' EmptyString
            else cur :: split_from s' EmptyString)
      else split_from s' (cur +:+ String c EmptyString)
  end.

Definition split (s : string) : list string := split_from s EmptyString.

(** [sub in s] *)
Fixpoint contains (sub s : string) : bool :=
  String.prefix sub s
  || match s with
     | EmptyString => false
     | String _ s' => contains sub s'
     end.

(** [s.replace(old, new)]: every occurrence of [old], left to right,
    without overlap. [skip] counts the characters of a match still to be
    dropped. *)
Fixpoint replace_from (old new s : string) (skip : nat) : string :=
  match s with
  | EmptyString => EmptyString
  | String c s' =>
      match skip with
      | S k => replace_from old new s' k
      | O =>
          if String.prefix old s
          then new +:+ replace_from old new s' (String.length old - 1)
          else String c (replace_from old new s' 0)
      end
  end.

Fixpoint replace_empty (new s : string) : string :=
  match s with
  | EmptyString => new
  | String c s' => new +:+ String c (replace_empty new s')
  end.

Definition replace (old new s : string) : string :=
  if is_empty old then replace_empty new s else replace_from old new s 0.

(** [sep.join(l)] *)
Definition join (sep : string) (l : list string) : string :=
  String.concat sep l.

Fixpoint last_char (s : string) : option ascii :=
  match s with
  | EmptyString => None
  | String c EmptyString => Some c
  | String _ s' => last_char s'
  end.

(** [s.endswith(c)] for a one-character suffix. *)
Definition endswith_char (s : string) (c : ascii) : bool :=
  match last_char s with
  | Some d => Ascii.eqb d c
  | None => false
  end.

(** [s[:-1]] *)
Fixpoint drop_last (s : string) : string :=
  match s with
  | EmptyString => EmptyString
  | String _ EmptyString => EmptyString
  | String c s' => String c (drop_last s')
  end.

(** The first character of [s] exists and is not whitespace. *)
Definition starts_nonspace (s : string) : bool :=
  match s with
  | EmptyString => false
  | String c _ => negb (is_space c)
  end.

(** [str(n)] for a non-negative integer. *)
Definition str_of_nat (n : nat) : string :=
  NilEmpty.string_of_uint (Nat.to_uint n).

End PyStr.

(** ** The query expander *)

(** The [corrections] dict, in insertion order. *)
Definition corrections : list (string * string) :=
  [ ("engineergs", "engineers");
    ("engineerg", "engineer");
    ("enginners", "engineers");
    ("enginer", "engineer");
    ("developpers", "developers");
    ("develper", "developer");
    ("mangager", "manager");
    ("mangers", "managers");
    ("desiner", "designer");
    ("desingers", "designers");
    ("anlyst", "analyst");
    ("anlysts", "analysts");
    ("scrum master", "scrum master");
    ("scrummaster", "scrum master");
    ("devops", "devops engineer");
    ("datascientist", "data scientist");
    ("prodcut", "product");
    ("frontent", "frontend");
    ("bakend", "backend");
    ("fullstack", "full stack") ].

(** The [role_expansions] dict, in insertion order. *)
Definition role_expansions : list (string * list string) :=
  [ ("engineer", ["engineer"; "engineering"; "software engineer"; "developer"]);
    ("engineers", ["engineers"; "engineering"; "software engineers"; "developers"]);
    ("dev", ["developer"; "engineer"; "software engineer"]);
    ("devs", ["developers"; "engineers"; "software engineers"]);
    ("designer", ["designer"; "design"; "ux designer"; "ui designer"; "graphic designer"]);
    ("designers", ["designers"; "design"; "ux designers"; "ui designers"; "graphic designers"]);
    ("manager", ["manager"; "management"; "project manager"; "product manager"]);
    ("managers", ["managers"; "management"; "project managers"; "product managers"]);
    ("pm", ["product manager"; "project manager"; "manager"]);
    ("qa", ["quality assurance"; "tester"; "qa engineer"]);
    ("sales", ["sales"; "sales representative"; "account executive"]);
    ("marketing", ["marketing"; "digital marketing"; "marketing specialist"]) ].

(** One iteration of [for wrong, right in corrections.items()]; the state
    is [(corrected_query, variations)]. *)
Definition correction_step (st : string * list string)
    (entry : string * string) : string * list string :=
  let '(corrected_query, variations) := st in
  let '(wrong, right') := entry in
  if PyStr.contains wrong corrected_query then
    let corrected_query := PyStr.replace wrong right' corrected_query in
    (corrected_query, variations ++ [corrected_query])
  else st.

Definition apply_corrections (query : string) (variations : list string)
    : list string :=
  snd (fold_left correction_step corrections (PyStr.lower query, variations)).

(** [enumerate(words)] *)
Fixpoint enumerate_from {A} (i : nat) (l : list A) : list (nat * A) :=
  match l with
  | [] => []
  | x :: l' => (i, x) :: enumerate_from (S i) l'
  end.

Definition enumerate {A} (l : list A) : list (nat * A) := enumerate_from 0 l.

(** One iteration of [for i, word in enumerate(words)]. [new_words] is the
    copy of [words] that both branches assign into. *)
Definition plural_step (words : list string) (variations : list string)
    (iw : nat * string) : list string :=
  let '(i, word) := iw in
  let word_lower := PyStr.lower word in
  let new_words := words in
  let '(new_words, variations) :=
    if negb (PyStr.endswith_char word_lower "s") && (3 <? String.length word_lower)
    then let new_words := <[i := word +:+ "s"]> new_words in
         (new_words, variations ++ [PyStr.join " " new_words])
    else (new_words, variations) in
  let '(new_words, variations) :=
    if PyStr.endswith_char word_lower "s" && (4 <? String.length word_lower)
    then let new_words := <[i := PyStr.drop_last word]> new_words in
         (new_words, variations ++ [PyStr.join " " new_words])
    else (new_words, variations) in
  variations.

Definition add_plurals (query : string) (variations : list string)
    : list string :=
  let words := PyStr.split query in
  fold_left (plural_step words) (enumerate words) variations.

(** One iteration of [for term, expansions in role_expansions.items()]. *)
Definition expansion_step (query_lower : string) (variations : list string)
    (entry : string * list string) : list string :=
  let '(term, expansions) := entry in
  if PyStr.contains term query_lower then
    fold_left
      (fun variations expansion =>
         let expanded := PyStr.replace term expansion query_lower in
         variations ++ [expanded])
      expansions variations
  else variations.

Definition add_expansions (query : string) (variations : list string)
    : list string :=
  let query_lower := PyStr.lower query in
  fold_left (expansion_step query_lower) role_expansions variations.

(** One iteration of the duplicate filter; the state is
    [(seen, unique_variations)]. *)
Definition unique_step (st : gset string * list string) (variation : string)
    : gset string * list string :=
  let '(seen, unique_variations) := st in
  if decide (PyStr.lower variation ∈ seen) then st
  else ({[PyStr.lower variation]} ∪ seen, unique_variations ++ [variation]).

Definition remove_duplicates (variations : list string) : list string :=
  snd (fold_left unique_step variations (∅, [])).

(** The list [variations] before duplicates are removed. *)
Definition all_variations (query : string) : list string :=
  let variations := [] in
  let variations := variations ++ [PyStr.strip query] in
  let variations := apply_corrections query variations in
  let variations := add_plurals query variations in
  let variations := add_expansions query variations in
  variations.

Definition _preprocess_query (query : string) : list string :=
  take 5 (remove_duplicates (all_variations query)).

(** ** Insertion-ordered dictionaries *)

Module PyDict.

Definition t (V : Type) : Type := list (string * V).

(** [d.get(k)] *)
Fixpoint get {V} (k : string) (d : t V) : option V :=
  match d with
  | [] => None
  | (k', v) :: d' => if String.eqb k k' then Some v else get k d'
  end.

(** [d[k] = v]: an existing key keeps its position, a new key goes to
    the end. *)
Fixpoint set {V} (k : string) (v : V) (d : t V) : t V :=
  match d with
  | [] => [(k, v)]
  | (k', v') :: d' =>
      if String.eqb k k' then (k', v) :: d' else (k', v') :: set k v d'
  end.

Definition keys {V} (d : t V) : list string := map fst d.

(** [list(d.values())] *)
Definition values {V} (d : t V) : list V := map snd d.

End PyDict.

(** ** Scores *)

Definition Qgt_bool (x y : Q) : bool := negb (Qle_bool x y).

(** Rounding half to even to the nearest integer. *)
Definition round_half_even (x : Q) : Z :=
  let f := Qfloor x in
  match (x - inject_Z f ?= 1 # 2)%Q with
  | Lt => f
  | Gt => (f + 1)%Z
  | Eq => if Z.even f then f else (f + 1)%Z
  end.

(** [round(x, 3)] *)
Definition round3 (x : Q) : Q :=
  Qmake (round_half_even (x * 1000)) 1000.

(** ** The services and the effects of a retrieval *)

Definition Embedding : Type := list Q.

(** One element of [pc_resp.matches]. *)
Record Match : Type := mkMatch {
  match_score : Q;
  match_metadata : option (gmap string string)
}.

(** The embedding client and the vector index: [None] is a raised
    exception. *)
Record Services : Type := mkServices {
  embeddings_create : string -> option Embedding;
  index_query : Embedding -> Z -> option (list Match)
}.

Inductive call : Type :=
| CallEmbed (input : string)
| CallQuery (vector : Embedding) (top_k : Z).

Inductive outcome (A : Type) : Type :=
| Returned (a : A)
| Raised.
Arguments Returned {A} a.
Arguments Raised {A}.

(** A computation that appends to the trace of service calls and either
    returns or raises. *)
Definition M (A : Type) : Type := list call -> outcome A * list call.

Definition ret {A} (a : A) : M A := fun tr => (Returned a, tr).

Definition bind {A B} (m : M A) (k : A -> M B) : M B :=
  fun tr =>
    match m tr with
    | (Returned a, tr') => k a tr'
    | (Raised, tr') => (Raised, tr')
    end.

(** [try: body except Exception: handler] *)
Definition try_except {A} (body handler : M A) : M A :=
  fun tr =>
    match body tr with
    | (Returned a, tr') => (Returned a, tr')
    | (Raised, tr') => handler tr'
    end.

Declare Scope py_scope.
Delimit Scope py_scope with py.
Notation "'do' x <- m ; k" := (bind m (fun x => k))
  (at level 10, x name, m at level 100, k at level 200) : py_scope.
Local Open Scope py_scope.

(** [for x in l: st = body(st, x)] *)
Fixpoint for_each {A S} (l : list A) (body : S -> A -> M S) (st : S) : M S :=
  match l with
  | [] => ret st
  | x :: l' => do st' <- body st x; for_each l' body st'
  end.

Definition do_embed (sv : Services) (input : string) : M Embedding :=
  fun tr =>
    (match embeddings_create sv input with
     | Some e => Returned e
     | None => Raised
     end, tr ++ [CallEmbed input]).

Definition do_query (sv : Services) (vector : Embedding) (top_k : Z)
    : M (list Match) :=
  fun tr =>
    (match index_query sv vector top_k with
     | Some ms => Returned ms
     | None => Raised
     end, tr ++ [CallQuery vector top_k]).

(** ** The candidate merger *)

Record Contact : Type := mkContact {
  name : string;
  title : string;
  company : string;
  location : string;
  industry : string;
  score : Q;
  query_used : string
}.

Record search_state : Type := mkState {
  all_contacts : PyDict.t Contact;
  best_query : string
}.

(** [md.get(key, '')] on [md = match.metadata or {}] *)
Definition md_get (m : Match) (key : string) : string :=
  let md := default ∅ (match_metadata m) in
  default EmptyString (md !! key).

(** The dict literal bound to [contact]. *)
Definition make_contact (variation : string) (m : Match) : Contact :=
  {| name := md_get m "name";
     title := md_get m "title";
     company := md_get m "company";
     location := md_get m "location";
     industry := md_get m "industry";
     score := round3 (match_score m);
     query_used := variation |}.

(** The body of [for match in pc_resp.matches]. *)
Definition process_match (query variation : string) (st : search_state)
    (m : Match) : search_state :=
  if Qgt_bool (match_score m) 0.25 then
    let name := md_get m "name" in
    let skip :=
      match PyDict.get name (all_contacts st) with
      | Some c => Qle_bool (match_score m) (score c)
      | None => false
      end in
    if skip then st
    else
      let contact := make_contact variation m in
      {| all_contacts := PyDict.set name contact (all_contacts st);
         best_query :=
           if Qgt_bool (match_score m) 0.4 && negb (String.eqb variation query)
           then variation else best_query st |}
  else st.

(** The body of the inner [try] for one variation. *)
Definition search_variation (sv : Services) (top_k : Z) (query : string)
    (st : search_state) (variation : string) : M search_state :=
  do q_emb <- do_embed sv variation;
  do matches <- do_query sv q_emb (top_k * 2);
  ret (fold_left (process_match query variation) matches st).

(** [for variation in query_variations], each iteration inside its own
    [try]; the handler prints and continues. *)
Definition search_variations (sv : Services) (top_k : Z) (query : string)
    (query_variations : list string) (st : search_state) : M search_state :=
  for_each query_variations
    (fun st variation =>
       try_except (search_variation sv top_k query st variation) (ret st))
    st.

(** [contacts.sort(key=lambda x: x["score"], reverse=True)]: Python's sort
    is stable, also with [reverse=True], so it is the insertion sort that
    puts an element before the first one whose score is not greater. *)
Fixpoint insert_desc (c : Contact) (l : list Contact) : list Contact :=
  match l with
  | [] => [c]
  | d :: l' =>
      if Qgt_bool (score d) (score c) then d :: insert_desc c l'
      else c :: d :: l'
  end.

Definition sort_by_score_desc (l : list Contact) : list Contact :=
  foldr insert_desc [] l.

(** [l[:stop]] *)
Definition slice_to {A} (l : list A) (stop : Z) : list A :=
  if (0 <=? stop)%Z then take (Z.to_nat stop) l
  else take (Z.to_nat (Z.of_nat (length l) + stop)) l.

Definition initial_state (query : string) : search_state :=
  {| all_contacts := []; best_query := query |}.

Definition _search_contacts (sv : Services) (query : string) (top_k : Z)
    : M (list Contact) :=
  try_except
    (let query_variations := _preprocess_query query in
     do st <- search_variations sv top_k query query_variations
                (initial_state query);
     let contacts := PyDict.values (all_contacts st) in
     let contacts := sort_by_score_desc contacts in
     ret (slice_to contacts top_k))
    (ret []).

(** ** The response formatter *)

(** The [if]/[elif] chain that picks the suggested terms. *)
Definition suggestions_for (query : string) : list string :=
  let query_lower := PyStr.lower query in
  if PyStr.contains "engineer" query_lower then
    ["engineers"; "developers"; "software engineers"]
  else if PyStr.contains "design" query_lower then
    ["designers"; "UX designers"; "UI designers"]
  else if PyStr.contains "manager" query_lower
          || PyStr.contains "manag" query_lower then
    ["managers"; "product managers"; "project managers"]
  else if PyStr.contains "dev" query_lower then
    ["developers"; "engineers"; "software developers"]
  else [].

Definition format_no_contacts (query : string) : string :=
  let suggestions := suggestions_for query in
  let response := "I searched for '" +:+ query +:+ "' but found no matches. " in
  match suggestions with
  | _ :: _ =>
      response +:+ "You might try searching for: "
        +:+ PyStr.join ", " (take 3 suggestions) +:+ "."
  | [] => response +:+ "Would you like to try a different term?"
  end.

Definition truthy (s : string) : bool := negb (PyStr.is_empty s).

Definition format_one_contact (c : Contact) : string :=
  let parts := [name c] in
  let parts := if truthy (title c) then parts ++ ["a " +:+ title c] else parts in
  let parts := if truthy (company c) then parts ++ ["at " +:+ company c] else parts in
  let parts := if truthy (location c) then parts ++ ["in " +:+ location c] else parts in
  let parts :=
    if truthy (industry c)
    then parts ++ ["in the " +:+ industry c +:+ " industry"] else parts in
  "I found " +:+ PyStr.join " " parts +:+ ".".

(** [by_company.setdefault(comp, []).append(c)] *)
Definition group_step (by_company : PyDict.t (list Contact)) (c : Contact)
    : PyDict.t (list Contact) :=
  let comp := if truthy (company c) then company c else "Other" in
  PyDict.set comp (default [] (PyDict.get comp by_company) ++ [c]) by_company.

Definition group_by_company (contacts : list Contact)
    : PyDict.t (list Contact) :=
  fold_left group_step contacts [].

(** The body of [for c in contacts[:3]]. *)
Definition snippet (by_company : PyDict.t (list Contact)) (c : Contact)
    : string :=
  let snip := name c in
  let snip := if truthy (title c) then snip +:+ ", " +:+ title c else snip in
  let snip :=
    if truthy (company c) && (1 <? length by_company)
    then snip +:+ " at " +:+ company c else snip in
  snip.

Definition format_many_contacts (contacts : list Contact) (query : string)
    : string :=
  let resp :=
    "I found " +:+ PyStr.str_of_nat (length contacts)
      +:+ " people matching '" +:+ query +:+ "'. " in
  let by_company := group_by_company contacts in
  let resp :=
    match by_company with
    | [(comp, _)] => resp +:+ "They all work at " +:+ comp +:+ ". "
    | _ => resp
    end in
  let snippets := map (snippet by_company) (take 3 contacts) in
  let resp := resp +:+ "Here are a few: " +:+ PyStr.join ", " snippets in
  if 3 <? length contacts
  then resp +:+ ", and " +:+ PyStr.str_of_nat (length contacts - 3) +:+ " more."
  else resp.

Definition _format_contact_response (contacts : list Contact)
    (query : string) : string :=
  match contacts with
  | [] => format_no_contacts query
  | [c] => format_one_contact c
  | _ => format_many_contacts contacts query
  end.

(** ** The tool the assistant calls *)

Definition _search_contacts_tool (sv : Services) (query : string) : M string :=
  do contacts <- _search_contacts sv query 5;
  ret (_format_contact_response contacts query).

(** ** Definitions used to state the properties *)

(** What one variation contributes: the matches of its index query, when
    both service calls return. *)
Definition variation_matches (sv : Services) (top_k : Z) (variation : string)
    : option (list Match) :=
  match embeddings_create sv variation with
  | Some q_emb => index_query sv q_emb (top_k * 2)
  | None => None
  end.

(** The variations whose calls return, each with its matches. *)
Definition successful_results (sv : Services) (top_k : Z)
    (query_variations : list string) : list (string * list Match) :=
  omap (fun variation =>
          match variation_matches sv top_k variation with
          | Some matches => Some (variation, matches)
          | None => None
          end)
       query_variations.

(** The accumulation of [all_contacts] over given results. *)
Definition merge_matches (query : string)
    (results : list (string * list Match)) (st : search_state)
    : search_state :=
  fold_left (fun st r => fold_left (process_match query r.1) r.2 st)
            results st.

(** The matches of given results, each with the variation that found it,
    in the order the loops visit them. *)
Definition flat_results (results : list (string * list Match))
    : list (string * Match) :=
  flat_map (fun r => map (pair r.1) r.2) results.

(** The matches a retrieval visits. *)
Definition visited (sv : Services) (query : string) (top_k : Z)
    : list (string * Match) :=
  flat_results (successful_results sv top_k (_preprocess_query query)).

(** The state after the loop over the variations. *)
Definition merged (sv : Services) (query : string) (top_k : Z)
    : search_state :=
  merge_matches query
    (successful_results sv top_k (_preprocess_query query))
    (initial_state query).

(** The list a retrieval returns. *)
Definition search_result (sv : Services) (query : string) (top_k : Z)
    : list Contact :=
  slice_to
    (sort_by_score_desc (PyDict.values (all_contacts (merged sv query top_k))))
    top_k.

(** A match that passes the relevance filter. *)
Definition kept (m : Match) : Prop := Qgt_bool (match_score m) 0.25 = true.

(** What the accumulation maintains, [seen] being the matches visited so
    far: the keys are distinct, every entry was made from a kept match
    that was seen and is stored under its name, and every kept match that
    was seen has an entry under its name with at least its rounded
    score. *)
Definition merge_inv (seen : list (string * Match)) (st : search_state)
    : Prop :=
  NoDup (PyDict.keys (all_contacts st))
  /\ (forall k c, (k, c) ∈ all_contacts st ->
        exists v m, (v, m) ∈ seen /\ kept m
                    /\ c = make_contact v m /\ k = md_get m "name")
  /\ (forall v m, (v, m) ∈ seen -> kept m ->
        exists c, PyDict.get (md_get m "name") (all_contacts st) = Some c
                  /\ (round3 (match_score m) <= score c)%Q).

(** Contacts in descending order of score. *)
Definition sorted_desc (l : list Contact) : Prop :=
  StronglySorted (fun a b => (score b <= score a)%Q) l.

(** The contacts of [l] whose score equals [s], in the order of [l]. *)
Definition with_score (s : Q) (l : list Contact) : list Contact :=
  List.filter (fun c => Qeq_bool (score c) s) l.

(** [sub] occurs in [s]. *)
Definition occurs_in (sub s : string) : Prop :=
  exists pre post : string, s = pre +:+ sub +:+ post.

(** [s] has no character that [lower] would change. *)
Definition is_lowercase (s : string) : Prop := PyStr.lower s = s.

(** The variants each step of the expander appends. *)
Definition correction_variants (query : string) : list string :=
  apply_corrections query [].

Definition plural_variants (query : string) : list string :=
  add_plurals query [].

Definition expansion_variants (query : string) : list string :=
  add_expansions query [].

(** [contacts] is [discovered] sorted by descending score, contacts of
    equal score staying in the order of [discovered], cut to its first
    [top_k] elements. *)
Definition ranked (discovered : list Contact) (top_k : Z)
    (contacts : list Contact) : Prop :=
  exists sorted : list Contact,
    sorted ≡ₚ discovered
    /\ sorted_desc sorted
    /\ (forall s, with_score s sorted = with_score s discovered)
    /\ contacts = take (Z.to_nat top_k) sorted
    /\ (Z.of_nat (length contacts) <= top_k)%Z.

(** The apology for a query that suggests no other term. *)
Definition no_matches_response (query : string) : string :=
  "I searched for '" +:+ query
    +:+ "' but found no matches. Would you like to try a different term?".

(** Following the specification's words: the items of a list of size two
    or more are joined with ", " except the last, which is joined with
    " and ". *)
Definition spec_join_and (items : list string) : string :=
  match reverse items with
  | [] => EmptyString
  | [x] => x
  | last :: front => PyStr.join ", " (reverse front) +:+ " and " +:+ last
  end.

(** Following the specification's words: the count of the contacts after
    the third is phrased "and N others". *)
Definition spec_remainder (n : nat) : string :=
  "and " +:+ PyStr.str_of_nat n +:+ " others".

(** *** Concrete services and contacts for the examples *)

Definition metadata_of (l : list (string * string))
    : option (gmap string string) :=
  Some (list_to_map l).

(** An index that answers every query with the same matches. *)
Definition constant_services (matches : list Match) : Services :=
  {| embeddings_create := fun _ => Some [];
     index_query := fun _ _ => Some matches |}.

(** The index answers every query with one match. *)
Definition one_match_services (n : string) (s : Q) : Services :=
  {| embeddings_create := fun _ => Some [];
     index_query := fun _ _ => Some [mkMatch s (metadata_of [("name", n)])] |}.

(** Services that are down. *)
Definition failing_services : Services :=
  {| embeddings_create := fun _ => None;
     index_query := fun _ _ => None |}.

Definition sam_lee (s : Q) : Match :=
  mkMatch s (metadata_of [("name", "Sam Lee"); ("title", "Designer")]).

(** "Sam Lee" is found with score [s1] under the variation "designer",
    with score [s2] under "designers", and under no other. *)
Definition sam_lee_services (s1 s2 : Q) : Services :=
  {| embeddings_create := fun input =>
       if String.eqb input "designer" then Some [1%Q]
       else if String.eqb input "designers" then Some [2%Q]
       else Some [];
     index_query := fun vector _ =>
       match vector with
       | [x] => Some [sam_lee (if Qeq_bool x 1 then s1 else s2)]
       | _ => Some []
       end |}.

(** The same score, 0.5004, under both variations. *)
Definition tie_services : Services := sam_lee_services 0.5004 0.5004.

Definition sam_lee_contact (s : Q) (variation : string) : Contact :=
  {| name := "Sam Lee"; title := "Designer"; company := EmptyString; location := EmptyString;
     industry := EmptyString; score := s; query_used := variation |}.

Definition dana : Contact :=
  {| name := "Dana"; title := "Software Engineer"; company := "Google";
     location := EmptyString; industry := EmptyString; score := 0.81;
     query_used := "engineers at gogle" |}.

Definition person (n comp : string) : Contact :=
  {| name := n; title := EmptyString; company := comp; location := EmptyString;
     industry := EmptyString; score := 0.5; query_used := "team" |}.

Definition five_contacts : list Contact :=
  [ person "Ann" "Acme"; person "Bob" "Acme"; person "Cy" "Acme";
    person "Di" "Other Co"; person "Ed" "Other Co" ].

(** ** The memory tools *)

(** A value decoded from JSON; the items of an object are those of the
    decoded dict, in which a key occurs once. *)
#[local] Unset Elimination Schemes.
Inductive json : Type :=
| JNull
| JBool (b : bool)
| JNum (x : Q)
| JStr (s : string)
| JArr (items : list json)
| JObj (items : list (string * json)).
#[local] Set Elimination Schemes.

(** What [session.post(url, json=payload)] followed by
    [response.json()] does: the decoded body is returned, or an exception
    with the text [message] is raised. *)
Inductive http_result : Type :=
| HttpJson (body : json)
| HttpError (message : string).

Definition Http : Type := string -> json -> http_result.

Definition _capture_memory (post : Http) (text : string) : json :=
  match post "http://localhost:3000/api/capture-memory"
          (JObj [("text", JStr text); ("userId", JStr "voice-user")]) with
  | HttpJson result => result
  | HttpError e => JObj [("success", JBool false); ("error", JStr e)]
  end.

Definition _recall_memory (post : Http) (query : string) : json :=
  match post "http://localhost:3000/api/recall-memory"
          (JObj [("query", JStr query); ("userId", JStr "voice-user")]) with
  | HttpJson result => result
  | HttpError e => JObj [("success", JBool false); ("error", JStr e)]
  end.

(** The truth value of a decoded value in an [if]. *)
Definition json_truthy (v : json) : bool :=
  match v with
  | JNull => false
  | JBool b => b
  | JNum x => negb (Qeq_bool x 0)
  | JStr s => truthy s
  | JArr items => match items with [] => false | _ => true end
  | JObj items => match items with [] => false | _ => true end
  end.

(** [result.get(key, dflt)]: only a dict has [get], on any other value the
    attribute lookup raises. *)
Definition json_get (result : json) (key : string) (dflt : json)
    : outcome json :=
  match result with
  | JObj items => Returned (default dflt (PyDict.get key items))
  | _ => Raised
  end.

(** [v < x] for a number [x]: numbers and booleans compare, any other
    value raises. *)
Definition json_lt (v : json) (x : Q) : outcome bool :=
  match v with
  | JNum y => Returned (Qgt_bool x y)
  | JBool b => Returned (Qgt_bool x (if b then 1 else 0))
  | _ => Raised
  end.

(** [f"{v}"]: a string is inserted as it is; [repr] stands for Python's
    [str] on the other values. *)
Definition format_value (repr : json -> string) (v : json) : string :=
  match v with
  | JStr s => s
  | _ => repr v
  end.

Definition and_then {A B} (o : outcome A) (k : A -> outcome B) : outcome B :=
  match o with
  | Returned a => k a
  | Raised => Raised
  end.

Definition unclear_memory_response : string :=
  "I couldn't find clear information about a specific person in what you said. Could you be more specific about who and what you learned about them?".

Definition trouble_saving_response : string :=
  "I had trouble saving that memory. Could you try rephrasing it?".

Definition no_memories_response : string :=
  "I don't have any memories that match your query.".

(** The dash of the reply is the character U+2014, written here in
    UTF-8. *)
Definition _save_memory_tool (repr : json -> string) (post : Http)
    (memory_text : string) : outcome string :=
  let result := _capture_memory post memory_text in
  and_then (json_get result "success" JNull) (fun success =>
  if json_truthy success then
    and_then (json_get result "person" (JStr "someone")) (fun person =>
    and_then (json_get result "details" (JStr "information")) (fun details =>
    Returned ("Got it—saved that " +:+ format_value repr person +:+ " "
                +:+ format_value repr details +:+ ".")))
  else
    and_then (json_get result "confidence" (JNum 0)) (fun confidence =>
    and_then (json_lt confidence 0.7) (fun low =>
    if low then Returned unclear_memory_response
    else Returned trouble_saving_response))).

Definition _recall_memory_tool (post : Http) (query : string)
    : outcome json :=
  let result := _recall_memory post query in
  and_then (json_get result "success" JNull) (fun success =>
  if json_truthy success then
    json_get result "message" (JStr "I found that information.")
  else
    json_get result "message" (JStr no_memories_response)).

(** ** Further definitions used to state properties *)

(** The key a contact is grouped under. *)
Definition company_bucket (c : Contact) : string :=
  if truthy (company c) then company c else "Other".

Definition in_bucket (b : string) (c : Contact) : bool :=
  String.eqb (company_bucket c) b.

(** A field with its connecting words, or nothing when the field is
    empty. *)
Definition with_field (pre s post : string) : string :=
  if truthy s then pre +:+ s +:+ post else EmptyString.

Definition found_header (n : nat) (query : string) : string :=
  "I found " +:+ PyStr.str_of_nat n +:+ " people matching '" +:+ query
    +:+ "'. ".

Definition more_suffix (n : nat) : string :=
  if 3 <? n then ", and " +:+ PyStr.str_of_nat (n - 3) +:+ " more."
  else EmptyString.

(** The calls one variation makes. *)
Definition trace_of_variation (sv : Services) (top_k : Z)
    (variation : string) : list call :=
  match embeddings_create sv variation with
  | Some q_emb => [CallEmbed variation; CallQuery q_emb (top_k * 2)]
  | None => [CallEmbed variation]
  end.

Definition embed_inputs (tr : list call) : list string :=
  omap (fun c => match c with CallEmbed s => Some s | _ => None end) tr.

Definition kept_b (m : Match) : bool := Qgt_bool (match_score m) 0.25.

(** The same services, the index leaving out the matches that do not pass
    the relevance filter. *)
Definition without_unkept (sv : Services) : Services :=
  {| embeddings_create := embeddings_create sv;
     index_query := fun vector top_k =>
       match index_query sv vector top_k with
       | Some matches => Some (List.filter kept_b matches)
       | None => None
       end |}.

(** The variant one token gives in the singular/plural step, if any; both
    tests are on the lowercased token, [word_lower]. *)
Definition plural_of_token (words : list string) (iw : nat * string)
    : list string :=
  let '(i, word) := iw in
  let word_lower := PyStr.lower word in
  if PyStr.endswith_char word_lower "s"
  then (if 4 <? String.length word_lower
        then [PyStr.join " " (<[i := PyStr.drop_last word]> words)] else [])
  else (if 3 <? String.length word_lower
        then [PyStr.join " " (<[i := word +:+ "s"]> words)] else []).

(** The end of the apology, from the keywords the lowercased query
    contains. *)
Definition apology_tail (query : string) : string :=
  let q := PyStr.lower query in
  if PyStr.contains "engineer" q then
    "You might try searching for: engineers, developers, software engineers."
  else if PyStr.contains "design" q then
    "You might try searching for: designers, UX designers, UI designers."
  else if PyStr.contains "manag" q then
    "You might try searching for: managers, product managers, project managers."
  else if PyStr.contains "dev" q then
    "You might try searching for: developers, engineers, software developers."
  else "Would you like to try a different term?".

(** A memory endpoint that cannot be reached. *)
Definition unreachable : Http := fun _ _ => HttpError "connection refused".

(** A memory endpoint that answers with a JSON array. *)
Definition answers_with_array : Http := fun _ _ => HttpJson (JArr []).

(** A memory endpoint that reports a failure with confidence 0.9. *)
Definition answers_confident_failure : Http :=
  fun _ _ =>
    HttpJson (JObj [("success", JBool false); ("confidence", JNum 0.9)]).

(** Two matches without a name, the first with the higher score. *)
Definition unnamed_lead : Match :=
  mkMatch 0.5004 (metadata_of [("title", "Lead")]).

Definition unnamed_intern : Match :=
  mkMatch 0.5002 (metadata_of [("title", "Intern")]).

(** The index answers every query with the two of them, in this order. *)
Definition two_unnamed_services : Services :=
  constant_services [unnamed_lead; unnamed_intern].

(** The contact made from a match named "Al" of score 0.27 that the empty
    variant found. *)
Definition al_contact : Contact :=
  {| name := "Al"; title := EmptyString; company := EmptyString;
     location := EmptyString; industry := EmptyString;
     score := (270 # 1000)%Q; query_used := EmptyString |}.

(** * Properties *)

(** ** Facts about the string operations *)

Section StringFacts.
Import PyStr.

Lemma lower_char_idem (c : ascii) : lower_char (lower_char c) = lower_char c.
Proof. destruct c as [[] [] [] [] [] [] [] []]; reflexivity. Qed.

Lemma is_space_lower_char (c : ascii) : is_space (lower_char c) = is_space c.
Proof. destruct c as [[] [] [] [] [] [] [] []]; reflexivity. Qed.

Lemma lower_idem (s : string) : lower (lower s) = lower s.
Proof.
  induction s as [|c s IH]; simpl; [reflexivity|].
  now rewrite lower_char_idem, IH.
Qed.

Lemma lower_app (a b : string) : lower (a +:+ b) = lower a +:+ lower b.
Proof. induction a as [|c a IH]; simpl; [reflexivity|]. now rewrite IH. Qed.

Lemma all_space_lower (s : string) : all_space (lower s) = all_space s.
Proof.
  induction s as [|c s IH]; simpl; [reflexivity|].
  now rewrite is_space_lower_char, IH.
Qed.

Lemma lower_cons_inv (c : ascii) (s : string) :
  lower (String c s) = String c s -> lower_char c = c /\ lower s = s.
Proof. simpl. intros H. now injection H. Qed.

(** *** Prefixes and occurrences *)

Lemma prefix_app_iff (sub s : string) :
  String.prefix sub s = true <-> exists post, s = sub +:+ post.
Proof.
  revert s. induction sub as [|a sub IH]; intros s.
  - split; [intros _; now exists s|]. intros _. now destruct s.
  - destruct s as [|b s]; simpl.
    + split; [discriminate|]. intros [post H]. discriminate.
    + destruct (ascii_dec a b) as [->|Hne].
      * rewrite IH. split; intros [post H]; exists post.
        -- now rewrite H.
        -- now injection H.
      * split; [discriminate|]. intros [post H]. injection H as H1 _.
        now destruct Hne.
Qed.

Lemma contains_unfold (sub s : string) :
  contains sub s
  = String.prefix sub s
    || match s with EmptyString => false | String _ s' => contains sub s' end.
Proof. now destruct s. Qed.

Lemma contains_occurs (sub s : string) :
  contains sub s = true <-> occurs_in sub s.
Proof.
  unfold occurs_in. split.
  - induction s as [|c s IH]; rewrite contains_unfold;
      intros [H|H]%orb_true_iff; try discriminate.
    + apply prefix_app_iff in H as [post H]. now exists EmptyString, post.
    + apply prefix_app_iff in H as [post H]. now exists EmptyString, post.
    + destruct (IH H) as (pre & post & ->). now exists (String c pre), post.
  - intros (pre & post & ->). induction pre as [|c pre IH].
    + rewrite contains_unfold. apply orb_true_iff. left.
      apply prefix_app_iff. now exists post.
    + change (contains sub (String c (pre +:+ sub +:+ post)) = true).
      rewrite contains_unfold, IH. apply orb_true_r.
Qed.

(** *** Whitespace-only strings *)

Lemma contains_all_space (sub s : string) :
  starts_nonspace sub = true -> all_space s = true -> contains sub s = false.
Proof.
  destruct sub as [|a sub]; [discriminate|]. simpl. intros Ha.
  induction s as [|b s IH]; [reflexivity|].
  intros [Hb Hs]%andb_true_iff. rewrite contains_unfold, (IH Hs).
  simpl. destruct (ascii_dec a b) as [->|_]; [|reflexivity].
  rewrite Hb in Ha. discriminate.
Qed.

Lemma lstrip_all_space (s : string) : all_space s = true -> lstrip s = EmptyString.
Proof.
  induction s as [|c s IH]; [reflexivity|]. simpl.
  intros [Hc Hs]%andb_true_iff. rewrite Hc. auto.
Qed.

Lemma strip_all_space (s : string) : all_space s = true -> strip s = EmptyString.
Proof. intros H. unfold strip. now rewrite lstrip_all_space. Qed.

Lemma split_all_space (s : string) : all_space s = true -> split s = [].
Proof.
  unfold split. induction s as [|c s IH]; [reflexivity|]. simpl.
  intros [Hc Hs]%andb_true_iff. rewrite Hc. auto.
Qed.

(** *** Replacement keeps lowercase text lowercase *)

Lemma replace_from_lowercase (old new s : string) (skip : nat) :
  is_lowercase new -> is_lowercase s ->
  is_lowercase (replace_from old new s skip).
Proof.
  unfold is_lowercase. intros Hnew. revert skip.
  induction s as [|c s IH]; intros skip Hs; [reflexivity|].
  apply lower_cons_inv in Hs as [Hc Hs].
  cbn [replace_from]. destruct skip as [|k]; [|now apply IH].
  destruct (String.prefix old (String c s)).
  - now rewrite lower_app, Hnew, IH.
  - simpl. now rewrite Hc, IH.
Qed.

Lemma replace_empty_lowercase (new s : string) :
  is_lowercase new -> is_lowercase s -> is_lowercase (replace_empty new s).
Proof.
  unfold is_lowercase. intros Hnew.
  induction s as [|c s IH]; intros Hs; [exact Hnew|].
  apply lower_cons_inv in Hs as [Hc Hs]. simpl.
  rewrite lower_app, Hnew. simpl. now rewrite Hc, IH.
Qed.

Lemma replace_lowercase (old new s : string) :
  is_lowercase new -> is_lowercase s -> is_lowercase (replace old new s).
Proof.
  intros. unfold replace. destruct (is_empty old);
    auto using replace_empty_lowercase, replace_from_lowercase.
Qed.

(** *** Stripping keeps a contiguous part of the text *)

Lemma lstrip_spec (s : string) :
  exists pre, s = pre +:+ lstrip s /\ all_space pre = true.
Proof.
  induction s as [|c s (pre & IH & Hpre)]; [now exists EmptyString|]. simpl.
  destruct (is_space c) eqn:Hc; [|now exists EmptyString].
  exists (String c pre). split.
  - change (String c s = String c (pre +:+ lstrip s)). now f_equal.
  - simpl. now rewrite Hc, Hpre.
Qed.

Lemma rstrip_spec (s : string) :
  exists post, s = rstrip s +:+ post /\ all_space post = true.
Proof.
  induction s as [|c s (post & IH & Hpost)]; [now exists EmptyString|]. simpl.
  destruct (is_empty (rstrip s)) eqn:He, (is_space c) eqn:Hc; simpl.
  - exists (String c post). simpl. rewrite Hc, Hpost. split; [|reflexivity].
    destruct (rstrip s); [|discriminate]. simpl in *. now f_equal.
  - exists post. split; [|exact Hpost].
    change (String c s = String c (rstrip s +:+ post)). now f_equal.
  - exists post. split; [|exact Hpost].
    change (String c s = String c (rstrip s +:+ post)). now f_equal.
  - exists post. split; [|exact Hpost].
    change (String c s = String c (rstrip s +:+ post)). now f_equal.
Qed.

Lemma strip_spec (s : string) :
  exists pre post,
    s = pre +:+ strip s +:+ post
    /\ all_space pre = true /\ all_space post = true.
Proof.
  destruct (lstrip_spec s) as (pre & H1 & Hpre).
  destruct (rstrip_spec (lstrip s)) as (post & H2 & Hpost).
  exists pre, post. unfold strip. now rewrite <- H2, <- H1.
Qed.

End StringFacts.

(** ** Facts about the query expander *)

Section ExpanderFacts.
Import PyStr.

(** A loop whose body only appends to [variations] appends the
    concatenation of what each iteration appends. *)
Lemma fold_left_append_only {A} (f : list string -> A -> list string)
    (l : list A) (vs : list string) :
  (forall vs x, f vs x = vs ++ f [] x) ->
  fold_left f l vs = vs ++ flat_map (f []) l.
Proof.
  intros Hf. revert vs. induction l as [|x l IH]; intros vs; simpl.
  - now rewrite app_nil_r.
  - rewrite IH, (Hf vs x). now rewrite <- app_assoc.
Qed.

Lemma fold_left_snoc_map {A} (g : A -> string) (l : list A)
    (vs : list string) :
  fold_left (fun vs x => vs ++ [g x]) l vs = vs ++ map g l.
Proof.
  revert vs. induction l as [|x l IH]; intros vs; simpl.
  - now rewrite app_nil_r.
  - rewrite IH. now rewrite <- app_assoc.
Qed.

(** *** The correction loop *)

Lemma correction_loop_app (l : list (string * string)) (cq : string)
    (vs : list string) :
  snd (fold_left correction_step l (cq, vs))
  = vs ++ snd (fold_left correction_step l (cq, [])).
Proof.
  revert cq vs. induction l as [|[wrong right'] l IH]; intros cq vs; simpl.
  - now rewrite app_nil_r.
  - destruct (contains wrong cq); [|apply IH].
    rewrite (IH _ (vs ++ _)), (IH _ [_]). now rewrite <- app_assoc.
Qed.

Lemma apply_corrections_app (query : string) (vs : list string) :
  apply_corrections query vs = vs ++ correction_variants query.
Proof. apply correction_loop_app. Qed.

Lemma correction_loop_none (l : list (string * string)) (cq : string)
    (vs : list string) :
  Forall (fun e => contains e.1 cq = false) l ->
  fold_left correction_step l (cq, vs) = (cq, vs).
Proof.
  induction 1 as [|[wrong right'] l Hx _ IH]; simpl; [reflexivity|].
  simpl in Hx. now rewrite Hx.
Qed.

Lemma correction_loop_lowercase (l : list (string * string)) (cq : string)
    (vs : list string) :
  Forall (fun e => is_lowercase e.2) l ->
  is_lowercase cq -> Forall is_lowercase vs ->
  Forall is_lowercase (snd (fold_left correction_step l (cq, vs))).
Proof.
  intros Hl. revert cq vs.
  induction Hl as [|[wrong right'] l Hx _ IH]; intros cq vs Hcq Hvs; simpl;
    [exact Hvs|].
  simpl in Hx. destruct (contains wrong cq); [|now apply IH].
  assert (is_lowercase (replace wrong right' cq))
    by now apply replace_lowercase.
  apply IH; [assumption|]. apply Forall_app. split; [assumption|].
  now constructor.
Qed.

Lemma corrections_right_lowercase :
  Forall (fun e : string * string => is_lowercase e.2) corrections.
Proof. unfold corrections. repeat constructor. Qed.

Lemma correction_variants_lowercase (query : string) :
  Forall is_lowercase (correction_variants query).
Proof.
  apply correction_loop_lowercase;
    [apply corrections_right_lowercase|apply lower_idem|constructor].
Qed.

(** *** The singular/plural loop *)

Lemma plural_step_app (words vs : list string) (iw : nat * string) :
  plural_step words vs iw = vs ++ plural_step words [] iw.
Proof.
  destruct iw as [i word]. unfold plural_step.
  destruct (negb _ && _), (_ && _); simpl;
    rewrite <- ?app_assoc, ?app_nil_r; reflexivity.
Qed.

Lemma add_plurals_app (query : string) (vs : list string) :
  add_plurals query vs = vs ++ plural_variants query.
Proof.
  unfold plural_variants, add_plurals.
  rewrite !(fold_left_append_only (plural_step _));
    auto using plural_step_app.
Qed.

Lemma enumerate_from_lookup {A} (l : list A) (k i : nat) (x : A) :
  (i, x) ∈ enumerate_from k l -> k <= i /\ l !! (i - k) = Some x.
Proof.
  revert k. induction l as [|y l IH]; intros k; simpl.
  - intros H. inversion H.
  - intros [H|H]%elem_of_cons.
    + injection H as -> ->. split; [lia|]. now rewrite Nat.sub_diag.
    + apply IH in H as [Hle H]. split; [lia|].
      replace (i - k) with (S (i - S k)) by lia. exact H.
Qed.

Lemma plural_step_shape (words : list string) (i : nat) (word v : string) :
  v ∈ plural_step words [] (i, word) ->
  v = join " " (<[i := word +:+ "s"]> words)
  \/ v = join " " (<[i := drop_last word]> words).
Proof.
  unfold plural_step.
  destruct (endswith_char (lower word) "s"),
    (3 <? String.length (lower word)), (4 <? String.length (lower word));
    simpl; intros H;
    repeat (apply elem_of_cons in H as [H|H]; [auto|]); inversion H.
Qed.

(** *** The role expansion loop *)

Lemma expansion_step_app (ql : string) (vs : list string)
    (entry : string * list string) :
  expansion_step ql vs entry = vs ++ expansion_step ql [] entry.
Proof.
  destruct entry as [term exps]. unfold expansion_step.
  destruct (contains term ql); [|now rewrite app_nil_r].
  now rewrite !fold_left_snoc_map.
Qed.

Lemma add_expansions_app (query : string) (vs : list string) :
  add_expansions query vs = vs ++ expansion_variants query.
Proof.
  unfold expansion_variants, add_expansions.
  rewrite !(fold_left_append_only (expansion_step _));
    auto using expansion_step_app.
Qed.

Lemma expansion_step_eq (ql term : string) (exps : list string) :
  expansion_step ql [] (term, exps)
  = if contains term ql then map (fun e => replace term e ql) exps else [].
Proof.
  unfold expansion_step. destruct (contains term ql); [|reflexivity].
  now rewrite fold_left_snoc_map.
Qed.

Lemma expansion_variants_eq (query : string) :
  expansion_variants query
  = flat_map
      (fun entry : string * list string =>
         if contains entry.1 (lower query)
         then map (fun e => replace entry.1 e (lower query)) entry.2
         else [])
      role_expansions.
Proof.
  unfold expansion_variants, add_expansions.
  rewrite (fold_left_append_only (expansion_step _))
    by auto using expansion_step_app.
  rewrite app_nil_l. apply flat_map_ext. intros [term exps].
  apply expansion_step_eq.
Qed.

Lemma role_expansions_lowercase :
  Forall (fun e : string * list string => Forall is_lowercase e.2)
    role_expansions.
Proof. unfold role_expansions. repeat constructor. Qed.

Lemma expansion_variants_lowercase (query : string) :
  Forall is_lowercase (expansion_variants query).
Proof.
  rewrite expansion_variants_eq.
  pose proof role_expansions_lowercase as H.
  induction H as [|[term exps] l Hx _ IH]; simpl; [constructor|].
  apply Forall_app. split; [|exact IH].
  destruct (contains term (lower query)); [|constructor].
  simpl in Hx. apply Forall_fmap. eapply Forall_impl; [exact Hx|].
  intros e He. simpl. apply replace_lowercase; [exact He|apply lower_idem].
Qed.

(** *** The whole list of variations *)

Lemma all_variations_eq (query : string) :
  all_variations query
  = strip query
    :: correction_variants query ++ plural_variants query
       ++ expansion_variants query.
Proof.
  unfold all_variations.
  rewrite add_expansions_app, add_plurals_app, apply_corrections_app.
  simpl. now rewrite <- !app_assoc.
Qed.

(** *** Removing duplicates *)

Lemma unique_loop_prefix (l : list string) (seen : gset string)
    (acc : list string) :
  exists rest, snd (fold_left unique_step l (seen, acc)) = acc ++ rest.
Proof.
  revert seen acc. induction l as [|x l IH]; intros seen acc; simpl.
  - exists []. now rewrite app_nil_r.
  - destruct (decide (lower x ∈ seen)); [apply IH|].
    destruct (IH ({[lower x]} ∪ seen) (acc ++ [x])) as [rest ->].
    exists (x :: rest). now rewrite <- app_assoc.
Qed.

Lemma remove_duplicates_cons (x : string) (l : list string) :
  exists rest, remove_duplicates (x :: l) = x :: rest.
Proof.
  unfold remove_duplicates. simpl.
  destruct (decide (lower x ∈ (∅ : gset string))) as [H|_];
    [now apply not_elem_of_empty in H|].
  apply unique_loop_prefix.
Qed.

Lemma preprocess_query_shape (query : string) :
  exists rest,
    _preprocess_query query = strip query :: rest /\ length rest <= 4.
Proof.
  unfold _preprocess_query. rewrite all_variations_eq.
  destruct (remove_duplicates_cons (strip query)
              (correction_variants query ++ plural_variants query
               ++ expansion_variants query)) as [rest ->].
  exists (take 4 rest). split; [reflexivity|].
  rewrite length_take. lia.
Qed.

(** *** Whitespace-only queries *)

Lemma corrections_start_nonspace :
  Forall (fun e : string * string => starts_nonspace e.1 = true) corrections.
Proof. unfold corrections. repeat constructor. Qed.

Lemma role_expansions_start_nonspace :
  Forall (fun e : string * list string => starts_nonspace e.1 = true)
    role_expansions.
Proof. unfold role_expansions. repeat constructor. Qed.

Lemma all_variations_all_space (query : string) :
  all_space query = true -> all_variations query = [EmptyString].
Proof.
  intros Hq. rewrite all_variations_eq, (strip_all_space _ Hq).
  assert (Hl : all_space (lower query) = true) by now rewrite all_space_lower.
  f_equal.
  assert (correction_variants query = []) as ->.
  { unfold correction_variants, apply_corrections.
    rewrite correction_loop_none; [reflexivity|].
    eapply Forall_impl; [apply corrections_start_nonspace|].
    intros e He. now apply contains_all_space. }
  assert (plural_variants query = []) as ->.
  { unfold plural_variants, add_plurals. now rewrite split_all_space. }
  rewrite expansion_variants_eq, !app_nil_l.
  pose proof role_expansions_start_nonspace as H.
  induction H as [|e l Hx _ IH]; simpl; [reflexivity|].
  now rewrite (contains_all_space _ _ Hx Hl).
Qed.

Lemma preprocess_query_all_space (query : string) :
  all_space query = true -> _preprocess_query query = [EmptyString].
Proof.
  intros Hq. unfold _preprocess_query.
  rewrite (all_variations_all_space _ Hq). reflexivity.
Qed.

End ExpanderFacts.

(** ** Facts about scores *)

Section ScoreFacts.
Local Open Scope Q_scope.

Lemma Qgt_bool_iff (x y : Q) : Qgt_bool x y = true <-> y < x.
Proof.
  unfold Qgt_bool.
  rewrite negb_true_iff, <- not_true_iff_false, Qle_bool_iff.
  split; [apply Qnot_le_lt | apply Qlt_not_le].
Qed.

Lemma Qgt_bool_false_iff (x y : Q) : Qgt_bool x y = false <-> x <= y.
Proof. unfold Qgt_bool. now rewrite negb_false_iff, Qle_bool_iff. Qed.

Lemma round_half_even_bounds (x : Q) :
  (Qfloor x <= round_half_even x <= Qfloor x + 1)%Z.
Proof.
  unfold round_half_even.
  destruct (x - inject_Z (Qfloor x) ?= 1 # 2); [destruct (Z.even _)| |]; lia.
Qed.

Lemma round_half_even_comp (x y : Q) :
  x == y -> round_half_even x = round_half_even y.
Proof.
  intros H. unfold round_half_even. rewrite (Qfloor_comp _ _ H).
  now rewrite H.
Qed.

Lemma round_half_even_mono (x y : Q) :
  x <= y -> (round_half_even x <= round_half_even y)%Z.
Proof.
  intros Hxy. pose proof (Qfloor_resp_le _ _ Hxy) as Hf.
  destruct (Z.eq_dec (Qfloor x) (Qfloor y)) as [He|Hne].
  - unfold round_half_even. rewrite <- He.
    destruct (Qcompare_spec (x - inject_Z (Qfloor x)) (1 # 2)) as [Hx|Hx|Hx],
             (Qcompare_spec (y - inject_Z (Qfloor x)) (1 # 2)) as [Hy|Hy|Hy];
      try destruct (Z.even _); try lia; exfalso; lra.
  - pose proof (round_half_even_bounds x).
    pose proof (round_half_even_bounds y). lia.
Qed.

Lemma round_half_even_inject_Z (k : Z) : round_half_even (inject_Z k) = k.
Proof.
  unfold round_half_even. rewrite Qfloor_Z.
  destruct (Qcompare_spec (inject_Z k - inject_Z k) (1 # 2)) as [H|H|H];
    [exfalso; lra | reflexivity | exfalso; lra].
Qed.

Lemma round3_mono (x y : Q) : x <= y -> round3 x <= round3 y.
Proof.
  intros H. unfold round3, Qle. simpl.
  apply Z.mul_le_mono_nonneg_r; [lia|].
  apply round_half_even_mono. lra.
Qed.

Lemma round3_idem (x : Q) : round3 (round3 x) = round3 x.
Proof.
  unfold round3. f_equal. set (k := round_half_even (x * 1000)).
  rewrite <- (round_half_even_inject_Z k) at 2.
  apply round_half_even_comp. unfold Qeq. simpl. lia.
Qed.

Lemma round3_threshold (x : Q) : 0.25 < x -> 0.25 <= round3 x.
Proof.
  intros H.
  assert (H1 : (250 <= round_half_even (x * 1000))%Z).
  { rewrite <- (round_half_even_inject_Z 250). apply round_half_even_mono.
    change (inject_Z 250) with 250. lra. }
  unfold round3, Qle. simpl. lia.
Qed.

End ScoreFacts.

(** ** Facts about insertion-ordered dictionaries *)

Section DictFacts.
Context {V : Type}.
Implicit Types (d : PyDict.t V) (k : string) (v : V).

Lemma get_set_eq k v d : PyDict.get k (PyDict.set k v d) = Some v.
Proof.
  induction d as [|[k' v'] d IH]; simpl.
  - now rewrite String.eqb_refl.
  - destruct (String.eqb k k') eqn:E; simpl; rewrite E; auto.
Qed.

Lemma get_set_ne k k' v d :
  k <> k' -> PyDict.get k' (PyDict.set k v d) = PyDict.get k' d.
Proof.
  intros Hne. induction d as [|[k0 v0] d IH]; simpl.
  - apply String.eqb_neq in Hne. rewrite String.eqb_sym in Hne.
    now rewrite Hne.
  - destruct (String.eqb k k0) eqn:E; simpl; [|now rewrite IH].
    apply String.eqb_eq in E as <-.
    destruct (String.eqb k' k) eqn:E'; [|reflexivity].
    apply String.eqb_eq in E'. congruence.
Qed.

Lemma elem_of_set k v d (kv : string * V) :
  kv ∈ PyDict.set k v d -> kv ∈ d \/ kv = (k, v).
Proof.
  induction d as [|[k' v'] d IH]; simpl.
  - intros ->%list_elem_of_singleton. now right.
  - destruct (String.eqb k k') eqn:E.
    + apply String.eqb_eq in E as <-.
      intros [->|H]%elem_of_cons; [now right|].
      left. now apply elem_of_cons; right.
    + intros [->|H]%elem_of_cons; [left; apply elem_of_cons; now left|].
      destruct (IH H) as [H'|H']; [|now right].
      left. apply elem_of_cons. now right.
Qed.

Lemma get_None_keys k d : PyDict.get k d = None <-> k ∉ PyDict.keys d.
Proof.
  induction d as [|[k' v'] d IH]; simpl.
  - split; [intros _ H; inversion H|reflexivity].
  - rewrite not_elem_of_cons, <- IH.
    destruct (String.eqb k k') eqn:E.
    + apply String.eqb_eq in E. split; [discriminate|]. now intros [? _].
    + apply String.eqb_neq in E. tauto.
Qed.

Lemma keys_set k v d :
  PyDict.keys (PyDict.set k v d)
  = match PyDict.get k d with
    | Some _ => PyDict.keys d
    | None => PyDict.keys d ++ [k]
    end.
Proof.
  induction d as [|[k' v'] d IH]; simpl; [reflexivity|].
  destruct (String.eqb k k') eqn:E; simpl; [reflexivity|].
  rewrite IH. now destruct (PyDict.get k d).
Qed.

Lemma NoDup_keys_set k v d :
  NoDup (PyDict.keys d) -> NoDup (PyDict.keys (PyDict.set k v d)).
Proof.
  intros H. rewrite keys_set. destruct (PyDict.get k d) eqn:E; [exact H|].
  apply NoDup_app. split; [exact H|]. split; [|apply NoDup_singleton].
  intros x Hx ->%list_elem_of_singleton. now apply get_None_keys in E.
Qed.

Lemma get_Some_elem k v d : PyDict.get k d = Some v -> (k, v) ∈ d.
Proof.
  induction d as [|[k' v'] d IH]; simpl; [discriminate|].
  destruct (String.eqb k k') eqn:E.
  - apply String.eqb_eq in E as ->. intros [= ->]. now left.
  - intros H. right. auto.
Qed.

Lemma elem_get k v d :
  NoDup (PyDict.keys d) -> (k, v) ∈ d -> PyDict.get k d = Some v.
Proof.
  induction d as [|[k' v'] d IH]; simpl.
  - intros _ H. inversion H.
  - intros [Hnotin Hnd]%NoDup_cons [[= -> ->]|H]%elem_of_cons.
    + now rewrite String.eqb_refl.
    + destruct (String.eqb k k') eqn:E; [|auto].
      apply String.eqb_eq in E as ->. destruct Hnotin.
      apply list_elem_of_fmap. now exists (k', v).
Qed.

End DictFacts.

(** ** Facts about the candidate merger *)

Section MergerFacts.
Variable query : string.

Lemma merge_matches_flat (results : list (string * list Match))
    (st : search_state) :
  merge_matches query results st
  = fold_left (fun st vm => process_match query vm.1 st vm.2)
      (flat_results results) st.
Proof.
  unfold merge_matches, flat_results. revert st.
  induction results as [|[v ms] results IH]; intros st; simpl;
    [reflexivity|].
  rewrite fold_left_app, IH. f_equal.
  generalize st. clear. induction ms as [|m ms IH]; intros st; simpl; auto.
Qed.

Lemma stored_score_rounded (seen : list (string * Match))
    (st : search_state) (k : string) (c : Contact) :
  merge_inv seen st -> (k, c) ∈ all_contacts st ->
  round3 (score c) = score c.
Proof.
  intros (_ & Hb & _) Hin.
  destruct (Hb k c Hin) as (v & m & _ & _ & -> & _).
  apply round3_idem.
Qed.

Lemma merge_inv_weaken (seen : list (string * Match)) (vm : string * Match)
    (st : search_state) :
  merge_inv seen st -> ~ kept vm.2 -> merge_inv (seen ++ [vm]) st.
Proof.
  intros (Ha & Hb & Hc) Hk. split; [exact Ha|]. split.
  - intros k c Hin. destruct (Hb k c Hin) as (v & m & Hs & H).
    exists v, m. split; [|exact H]. apply elem_of_app. now left.
  - intros v m [Hs|Heq%list_elem_of_singleton]%elem_of_app Hm; [eauto|].
    subst vm. now destruct Hk.
Qed.

Lemma merge_inv_step (seen : list (string * Match)) (st : search_state)
    (v : string) (m : Match) :
  merge_inv seen st ->
  merge_inv (seen ++ [(v, m)]) (process_match query v st m).
Proof.
  intros Hinv. pose proof Hinv as (Ha & Hb & Hc). unfold process_match.
  destruct (Qgt_bool (match_score m) 0.25) eqn:Hk;
    [|apply merge_inv_weaken; [exact Hinv|]; unfold kept; simpl; congruence].
  remember (md_get m "name") as n eqn:Hn.
  assert (Hold : forall k c, (k, c) ∈ all_contacts st ->
            exists v' m', (v', m') ∈ seen ++ [(v, m)] /\ kept m'
                          /\ c = make_contact v' m' /\ k = md_get m' "name").
  { intros k c Hin. destruct (Hb k c Hin) as (v' & m' & Hs & H).
    exists v', m'. split; [|exact H]. apply elem_of_app. now left. }
  assert (Hnew : forall k c, (k, c) = (n, make_contact v m) ->
            exists v' m', (v', m') ∈ seen ++ [(v, m)] /\ kept m'
                          /\ c = make_contact v' m' /\ k = md_get m' "name").
  { intros k c [= -> ->]. exists v, m.
    split; [apply elem_of_app; right; now left|]. now split. }
  assert (Hother : forall v' m' c,
            (v', m') ∈ seen ++ [(v, m)] -> kept m' ->
            n <> md_get m' "name" ->
            exists c', PyDict.get (md_get m' "name")
                         (PyDict.set n c (all_contacts st)) = Some c'
                       /\ (round3 (match_score m') <= score c')%Q).
  { intros v' m' c Hs Hm Hne. rewrite get_set_ne by exact Hne.
    apply elem_of_app in Hs as [Hs|Hs%list_elem_of_singleton]; [eauto|].
    injection Hs as -> ->. now destruct Hne. }
  destruct (PyDict.get n (all_contacts st)) as [c0|] eqn:Hg;
    [destruct (Qle_bool (match_score m) (score c0)) eqn:Hle|].
  - (* the stored entry is kept *)
    split; [exact Ha|]. split; [exact Hold|].
    intros v' m' [Hs|Hs%list_elem_of_singleton]%elem_of_app Hm; [eauto|].
    injection Hs as -> ->. rewrite <- Hn. exists c0. split; [exact Hg|].
    rewrite <- (stored_score_rounded _ _ n c0 Hinv)
      by now apply get_Some_elem.
    apply round3_mono. now apply Qle_bool_iff.
  - (* the stored entry is replaced *)
    assert (Hlt : (score c0 <= match_score m)%Q).
    { apply Qlt_le_weak, Qgt_bool_iff. unfold Qgt_bool. now rewrite Hle. }
    unfold merge_inv. cbn [all_contacts].
    split; [now apply NoDup_keys_set|]. split.
    + intros k c [Hin|Heq]%elem_of_set; auto.
    + intros v' m' Hs Hm.
      destruct (String.eqb_spec n (md_get m' "name")) as [He|Hne];
        [|now apply (Hother v' m')].
      rewrite <- He, get_set_eq. eexists; split; [reflexivity|].
      cbn [score make_contact].
      apply elem_of_app in Hs as [Hs|Hs%list_elem_of_singleton];
        [|injection Hs as -> ->; apply Qle_refl].
      destruct (Hc v' m' Hs Hm) as (c & Hgc & Hle').
      rewrite <- He, Hg in Hgc. injection Hgc as <-.
      eapply Qle_trans; [exact Hle'|].
      rewrite <- (stored_score_rounded _ _ n c0 Hinv)
        by now apply get_Some_elem.
      now apply round3_mono.
  - (* a new entry is added *)
    unfold merge_inv. cbn [all_contacts].
    split; [now apply NoDup_keys_set|]. split.
    + intros k c [Hin|Heq]%elem_of_set; auto.
    + intros v' m' Hs Hm.
      destruct (String.eqb_spec n (md_get m' "name")) as [He|Hne];
        [|now apply (Hother v' m')].
      rewrite <- He, get_set_eq. eexists; split; [reflexivity|].
      cbn [score make_contact].
      apply elem_of_app in Hs as [Hs|Hs%list_elem_of_singleton];
        [|injection Hs as -> ->; apply Qle_refl].
      destruct (Hc v' m' Hs Hm) as (c & Hgc & _).
      rewrite <- He, Hg in Hgc. discriminate.
Qed.

Lemma merge_inv_fold (l seen : list (string * Match)) (st : search_state) :
  merge_inv seen st ->
  merge_inv (seen ++ l)
    (fold_left (fun st vm => process_match query vm.1 st vm.2) l st).
Proof.
  revert seen st. induction l as [|[v m] l IH]; intros seen st H; simpl.
  - now rewrite app_nil_r.
  - rewrite (cons_middle (v, m) seen l), app_assoc. apply IH.
    now apply merge_inv_step.
Qed.

Lemma merge_inv_initial : merge_inv [] (initial_state query).
Proof.
  split; [constructor|]. split.
  - intros k c H. inversion H.
  - intros v m H. inversion H.
Qed.

End MergerFacts.

Lemma merged_inv (sv : Services) (query : string) (top_k : Z) :
  merge_inv (visited sv query top_k) (merged sv query top_k).
Proof.
  unfold merged, visited. rewrite merge_matches_flat.
  apply (merge_inv_fold query _ []), merge_inv_initial.
Qed.

(** The names of the stored contacts are their keys, hence distinct. *)
Lemma merge_inv_names (seen : list (string * Match)) (st : search_state) :
  merge_inv seen st ->
  map name (PyDict.values (all_contacts st)) = PyDict.keys (all_contacts st).
Proof.
  intros (_ & Hb & _). unfold PyDict.values, PyDict.keys.
  rewrite map_map. apply map_ext_in. intros [k c] Hin%list_elem_of_In.
  destruct (Hb k c Hin) as (v & m & _ & _ & -> & ->). reflexivity.
Qed.

(** ** The retrieval as a function of what the services answer *)

Section RunFacts.
Variables (sv : Services) (top_k : Z) (query : string).

Lemma try_variation_run (st : search_state) (v : string) (tr : list call) :
  exists tr',
    try_except (search_variation sv top_k query st v) (ret st) tr
    = (Returned
         match variation_matches sv top_k v with
         | Some ms => fold_left (process_match query v) ms st
         | None => st
         end,
       tr ++ tr').
Proof.
  unfold try_except, search_variation, bind, do_embed, do_query, ret,
    variation_matches.
  destruct (embeddings_create sv v) as [e|];
    [destruct (index_query sv e (top_k * 2)) as [ms|]|].
  - exists [CallEmbed v; CallQuery e (top_k * 2)]. now rewrite <- app_assoc.
  - exists [CallEmbed v; CallQuery e (top_k * 2)]. now rewrite <- app_assoc.
  - now exists [CallEmbed v].
Qed.

Lemma search_variations_run (vs : list string) (st : search_state)
    (tr : list call) :
  exists tr',
    search_variations sv top_k query vs st tr
    = (Returned (merge_matches query (successful_results sv top_k vs) st),
       tr ++ tr').
Proof.
  unfold search_variations. revert st tr.
  induction vs as [|v vs IH]; intros st tr.
  - exists []. now rewrite app_nil_r.
  - cbn [for_each]. unfold bind at 1.
    destruct (try_variation_run st v tr) as [tr1 ->].
    match goal with
    | |- context [for_each vs _ ?st' ?tr'] =>
        destruct (IH st' tr') as [tr2 ->]
    end.
    exists (tr1 ++ tr2). rewrite app_assoc. f_equal. f_equal.
    unfold successful_results. cbn [omap list_omap].
    now destruct (variation_matches sv top_k v).
Qed.

Lemma search_contacts_run (tr : list call) :
  exists tr',
    _search_contacts sv query top_k tr
    = (Returned (search_result sv query top_k), tr ++ tr').
Proof.
  unfold _search_contacts, try_except, bind.
  destruct (search_variations_run (_preprocess_query query)
              (initial_state query) tr) as [tr' ->].
  now exists tr'.
Qed.

Lemma successful_results_none (vs : list string) :
  Forall (fun v => variation_matches sv top_k v = None) vs ->
  successful_results sv top_k vs = [].
Proof.
  unfold successful_results.
  induction 1 as [|v vs Hv _ IH]; cbn [omap list_omap]; [reflexivity|].
  now rewrite Hv.
Qed.

End RunFacts.

(** ** Facts about sorting and truncation *)

Section SortFacts.
Local Open Scope Q_scope.

Lemma insert_desc_perm (c : Contact) (l : list Contact) :
  insert_desc c l ≡ₚ c :: l.
Proof.
  induction l as [|d l IH]; simpl; [reflexivity|].
  destruct (Qgt_bool (score d) (score c)); [|reflexivity].
  rewrite IH. apply perm_swap.
Qed.

Lemma sort_perm (l : list Contact) : sort_by_score_desc l ≡ₚ l.
Proof.
  induction l as [|c l IH]; simpl; [reflexivity|].
  now rewrite insert_desc_perm, IH.
Qed.

Lemma insert_desc_sorted (c : Contact) (l : list Contact) :
  sorted_desc l -> sorted_desc (insert_desc c l).
Proof.
  unfold sorted_desc. induction 1 as [|d l Hs IH Hd]; simpl.
  - repeat constructor.
  - destruct (Qgt_bool (score d) (score c)) eqn:E.
    + apply Qgt_bool_iff in E. constructor; [exact IH|].
      rewrite insert_desc_perm. constructor; [now apply Qlt_le_weak|exact Hd].
    + apply Qgt_bool_false_iff in E. constructor; [now constructor|].
      constructor; [exact E|]. eapply Forall_impl; [exact Hd|].
      intros b Hb. simpl in Hb. now apply Qle_trans with (score d).
Qed.

Lemma sort_sorted (l : list Contact) : sorted_desc (sort_by_score_desc l).
Proof.
  induction l as [|c l IH]; simpl; [constructor|].
  now apply insert_desc_sorted.
Qed.

Lemma with_score_insert (s : Q) (c : Contact) (l : list Contact) :
  with_score s (insert_desc c l) = with_score s (c :: l).
Proof.
  unfold with_score. induction l as [|d l IH]; [reflexivity|].
  cbn [insert_desc]. destruct (Qgt_bool (score d) (score c)) eqn:E;
    [|reflexivity].
  cbn [List.filter] in *. rewrite IH.
  destruct (Qeq_bool (score d) s) eqn:Ed, (Qeq_bool (score c) s) eqn:Ec;
    try reflexivity.
  apply Qgt_bool_iff in E. apply Qeq_bool_iff in Ed, Ec.
  rewrite Ed, Ec in E. now apply Qlt_irrefl in E.
Qed.

Lemma with_score_sort (s : Q) (l : list Contact) :
  with_score s (sort_by_score_desc l) = with_score s l.
Proof.
  induction l as [|c l IH]; [reflexivity|].
  cbn [sort_by_score_desc foldr]. rewrite with_score_insert.
  unfold with_score in *. cbn [List.filter].
  fold (sort_by_score_desc l). now rewrite IH.
Qed.

Lemma slice_to_nonneg {A} (l : list A) (stop : Z) :
  (0 <= stop)%Z -> slice_to l stop = take (Z.to_nat stop) l.
Proof. intros H. unfold slice_to. now rewrite (proj2 (Z.leb_le 0 stop) H). Qed.

Lemma slice_to_sublist {A} (l : list A) (stop : Z) :
  slice_to l stop `sublist_of` l.
Proof. unfold slice_to. destruct (0 <=? stop)%Z; apply sublist_take. Qed.

Lemma slice_to_map {A B} (f : A -> B) (l : list A) (stop : Z) :
  map f (slice_to l stop) = slice_to (map f l) stop.
Proof.
  unfold slice_to. rewrite length_map.
  destruct (0 <=? stop)%Z; now rewrite firstn_map.
Qed.

Lemma slice_to_nil {A} (stop : Z) : slice_to (@nil A) stop = [].
Proof. unfold slice_to. destruct (0 <=? stop)%Z; apply take_nil. Qed.

End SortFacts.

(** ** Facts about the returned list *)

Lemma search_result_elem (sv : Services) (query : string) (top_k : Z)
    (c : Contact) :
  c ∈ search_result sv query top_k ->
  exists k, (k, c) ∈ all_contacts (merged sv query top_k).
Proof.
  unfold search_result. intros H.
  apply elem_of_sublist with (l2 := sort_by_score_desc
    (PyDict.values (all_contacts (merged sv query top_k)))) in H;
    [|apply slice_to_sublist].
  rewrite sort_perm in H. unfold PyDict.values in H.
  apply list_elem_of_In, in_map_iff in H as ([k c'] & <- & H).
  exists k. now apply list_elem_of_In.
Qed.

Lemma search_result_names_NoDup (sv : Services) (query : string) (top_k : Z) :
  NoDup (map name (search_result sv query top_k)).
Proof.
  pose proof (merged_inv sv query top_k) as Hinv.
  pose proof Hinv as (Hnd & _). rewrite <- (merge_inv_names _ _ Hinv) in Hnd.
  unfold search_result.
  rewrite slice_to_map.
  eapply sublist_NoDup; [|apply slice_to_sublist].
  now rewrite (Permutation_map name (sort_perm _)).
Qed.

Lemma NoDup_names_at_most_one (n : string) (l : list Contact) :
  NoDup (map name l) ->
  length (List.filter (fun c => String.eqb (name c) n) l) <= 1.
Proof.
  induction l as [|c l IH]; simpl; [lia|].
  intros [Hnotin Hnd]%NoDup_cons. specialize (IH Hnd).
  destruct (String.eqb_spec (name c) n) as [<-|Hne]; [|exact IH].
  simpl. enough (List.filter (fun d => String.eqb (name d) (name c)) l = [])
    as -> by (simpl; lia).
  clear IH Hnd. induction l as [|d l IH]; [reflexivity|]. simpl.
  apply not_elem_of_cons in Hnotin as [Hd Hl].
  destruct (String.eqb_spec (name d) (name c)) as [E|_]; [|auto].
  now destruct Hd.
Qed.

(** ** Facts about the response formatter *)

Lemma string_app_assoc (a b c : string) : (a +:+ b) +:+ c = a +:+ b +:+ c.
Proof. induction a as [|x a IH]; simpl; [reflexivity|]. now rewrite IH. Qed.

Lemma suggestions_for_all_space (query : string) :
  PyStr.all_space query = true -> suggestions_for query = [].
Proof.
  intros Hq. unfold suggestions_for.
  assert (Hl : PyStr.all_space (PyStr.lower query) = true)
    by now rewrite all_space_lower.
  now rewrite !(fun sub H => contains_all_space sub _ H Hl) by reflexivity.
Qed.

(** ** Worked examples *)

Example expand_designer :
  _preprocess_query "designer"
  = ["designer"; "designers"; "design"; "ux designer"; "ui designer"].
Proof. reflexivity. Qed.

Example expand_typo :
  _preprocess_query "enginners at gogle"
  = ["enginners at gogle"; "engineers at gogle"; "enginner at gogle";
     "enginners at gogles"].
Proof. reflexivity. Qed.

Example expand_mixed_case :
  _preprocess_query "Senior PM"
  = ["Senior PM"; "Seniors PM"; "senior product manager";
     "senior project manager"; "senior manager"].
Proof. reflexivity. Qed.

Example merge_higher_score_replaces :
  fst (_search_contacts (sam_lee_services 0.5 0.7) "designer" 5 [])
  = Returned [sam_lee_contact (700 # 1000) "designers"].
Proof. vm_compute. reflexivity. Qed.

Example merge_lower_score_is_skipped :
  fst (_search_contacts (sam_lee_services 0.7 0.5) "designer" 5 [])
  = Returned [sam_lee_contact (700 # 1000) "designer"].
Proof. vm_compute. reflexivity. Qed.

Example merge_tie_with_three_decimals :
  fst (_search_contacts (sam_lee_services 0.5 0.5) "designer" 5 [])
  = Returned [sam_lee_contact (500 # 1000) "designer"].
Proof. vm_compute. reflexivity. Qed.

Example retrieval_with_services_down :
  _search_contacts failing_services "designer" 5 []
  = (Returned [],
     [CallEmbed "designer"; CallEmbed "designers"; CallEmbed "design";
      CallEmbed "ux designer"; CallEmbed "ui designer"]).
Proof. vm_compute. reflexivity. Qed.

Example format_one_contact_dana :
  _format_contact_response [dana] "enginners at gogle"
  = "I found Dana a Software Engineer at Google.".
Proof. reflexivity. Qed.

Example format_no_contacts_unicorn :
  _format_contact_response [] "unicorn tamer"
  = "I searched for 'unicorn tamer' but found no matches. Would you like to try a different term?".
Proof. reflexivity. Qed.

Example format_no_contacts_suggests :
  _format_contact_response [] "Designers in Paris"
  = "I searched for 'Designers in Paris' but found no matches. You might try searching for: designers, UX designers, UI designers.".
Proof. reflexivity. Qed.

(** * The claims *)

(** ** The query expander *)

(** C4, as the code has it: the expander returns between 1 and 5 variants,
    and the first one is the query text with its leading and trailing
    whitespace stripped. *)
Theorem C4_expand_length_and_head (query : string) :
  1 <= length (_preprocess_query query) <= 5
  /\ head (_preprocess_query query) = Some (PyStr.strip query).
Proof.
  destruct (preprocess_query_shape query) as (rest & -> & Hlen).
  simpl. split; [lia|reflexivity].
Qed.

(** C4, counterexample: for the query " pm" the first variant is "pm", not
    the raw text. *)
Lemma C4_head_is_not_raw_text :
  ~ (1 <= length (_preprocess_query " pm") <= 5
     /\ head (_preprocess_query " pm") = Some " pm").
Proof. intros [_ H]. vm_compute in H. discriminate. Qed.

(** C8, as the code has it: an entry of the role table fires exactly when
    its term occurs somewhere in the lowercased query, as a substring, and
    it appends, for each of its synonyms in turn, the lowercased query with
    the occurrences of the term replaced by that synonym. *)
Theorem C8_expansion_matches_substrings (query : string) :
  expansion_variants query
  = flat_map
      (fun entry : string * list string =>
         if PyStr.contains entry.1 (PyStr.lower query)
         then map (fun e => PyStr.replace entry.1 e (PyStr.lower query)) entry.2
         else [])
      role_expansions
  /\ (forall term : string,
        PyStr.contains term (PyStr.lower query) = true
        <-> occurs_in term (PyStr.lower query)).
Proof.
  split; [apply expansion_variants_eq|]. intros term. apply contains_occurs.
Qed.

(** C8, counterexample: "pm" is not a token of the query "shipment", yet
    its table entry fires, and the replacement happens inside the word. *)
Lemma C8_fires_inside_a_word :
  ~ (forall entry : string * list string,
       entry ∈ role_expansions ->
       expansion_step (PyStr.lower "shipment") [] entry <> [] ->
       entry.1 ∈ PyStr.split (PyStr.lower "shipment"))
  /\ "shiproduct managerent" ∈ expansion_variants "shipment".
Proof.
  split.
  - intros H.
    specialize (H ("pm", ["product manager"; "project manager"; "manager"])).
    assert (Hin : "pm" ∈ PyStr.split (PyStr.lower "shipment")).
    { apply H; [apply list_elem_of_In; simpl; tauto|]. vm_compute. discriminate. }
    vm_compute in Hin. apply list_elem_of_singleton in Hin. discriminate.
  - vm_compute. repeat constructor.
Qed.

(** C9: the variants appended by the correction step and by the role
    expansion step have no uppercase character, being made from the
    lowercased query; the first variant is a contiguous part of the query
    itself, and every singular/plural variant is the query's own tokens,
    unchanged in case, joined by single spaces, with one token extended by
    "s" or shortened by its last character. *)
Theorem C9_casing_of_variants (query : string) :
  all_variations query
  = PyStr.strip query
    :: correction_variants query ++ plural_variants query
       ++ expansion_variants query
  /\ Forall is_lowercase (correction_variants query)
  /\ Forall is_lowercase (expansion_variants query)
  /\ (exists pre post, query = pre +:+ PyStr.strip query +:+ post)
  /\ (forall v, v ∈ plural_variants query ->
        exists (i : nat) (word : string),
          PyStr.split query !! i = Some word
          /\ (v = PyStr.join " " (<[i := word +:+ "s"]> (PyStr.split query))
              \/ v = PyStr.join " "
                       (<[i := PyStr.drop_last word]> (PyStr.split query)))).
Proof.
  split; [apply all_variations_eq|].
  split; [apply correction_variants_lowercase|].
  split; [apply expansion_variants_lowercase|].
  split.
  - destruct (strip_spec query) as (pre & post & H & _). now exists pre, post.
  - intros v Hv. unfold plural_variants, add_plurals in Hv.
    rewrite (fold_left_append_only (plural_step _)) in Hv
      by auto using plural_step_app.
    rewrite app_nil_l in Hv.
    apply list_elem_of_In, in_flat_map in Hv as ([i word] & Hiw & Hv).
    apply list_elem_of_In, enumerate_from_lookup in Hiw as [_ Hiw].
    rewrite Nat.sub_0_r in Hiw. exists i, word. split; [exact Hiw|].
    now apply plural_step_shape, list_elem_of_In.
Qed.

(** ** The candidate merger *)

(** C1, evaluated where it fails: "Sam Lee" is found with score 0.5004
    under the variation "designer" and again, with the same score, under
    the later variation "designers". One entry is returned, and its
    [query_used] is "designers": the stored score is the rounded 0.5, the
    new match is compared unrounded, so the tie is taken from the later
    variation. *)
Theorem C1_tie_taken_from_later_variation :
  _preprocess_query "designer"
  = ["designer"; "designers"; "design"; "ux designer"; "ui designer"]
  /\ variation_matches tie_services 5 "designer" = Some [sam_lee 0.5004]
  /\ variation_matches tie_services 5 "designers" = Some [sam_lee 0.5004]
  /\ fst (_search_contacts tie_services "designer" 5 [])
     = Returned
         [sam_lee_contact (500 # 1000) "designers"].
Proof. repeat split; vm_compute; reflexivity. Qed.

(** C2, counterexample: for the query of three spaces the embedding
    service and the index are called. *)
Lemma C2_blank_query_reaches_the_services :
  PyStr.all_space "   " = true
  /\ snd (_search_contacts_tool (constant_services []) "   " [])
     = [CallEmbed EmptyString; CallQuery [] 10]
  /\ ~ snd (_search_contacts_tool (constant_services []) "   " []) = [].
Proof. repeat split. vm_compute. discriminate. Qed.

(** C3: a retrieval always returns, for any behaviour of the services. The
    list it returns is the one merged from the variations whose two calls
    returned, a variation with a failed call contributing nothing; when the
    calls fail for every variation the list is empty. *)
Theorem C3_retrieval_never_raises (sv : Services) (query : string)
    (top_k : Z) :
  exists contacts tr,
    _search_contacts sv query top_k [] = (Returned contacts, tr)
    /\ contacts
       = slice_to
           (sort_by_score_desc
              (PyDict.values
                 (all_contacts
                    (merge_matches query
                       (successful_results sv top_k (_preprocess_query query))
                       (initial_state query)))))
           top_k
    /\ (Forall (fun v => variation_matches sv top_k v = None)
          (_preprocess_query query) ->
        contacts = []).
Proof.
  destruct (search_contacts_run sv top_k query []) as [tr H].
  exists (search_result sv query top_k), tr. split; [exact H|].
  split; [reflexivity|]. intros Hall.
  unfold search_result, merged.
  rewrite (successful_results_none _ _ _ Hall). apply slice_to_nil.
Qed.

(** C5, as the code has it: every returned contact was made from a match
    whose score is strictly above 0.25, a constant of the code, and carries
    that score rounded to three decimals, which is at least 0.25; the tool
    asks for 5 contacts. *)
Theorem C5_scores_above_a_quarter (sv : Services) (query : string)
    (top_k : Z) :
  (exists contacts tr,
     _search_contacts sv query top_k [] = (Returned contacts, tr)
     /\ forall c, c ∈ contacts ->
          (0.25 <= score c)%Q
          /\ exists v m, (v, m) ∈ visited sv query top_k
                         /\ (0.25 < match_score m)%Q
                         /\ c = make_contact v m)
  /\ _search_contacts_tool sv query
     = bind (_search_contacts sv query 5)
         (fun contacts => ret (_format_contact_response contacts query)).
Proof.
  split; [|reflexivity].
  destruct (search_contacts_run sv top_k query []) as [tr H].
  exists (search_result sv query top_k), tr. split; [exact H|].
  intros c [k Hin]%search_result_elem.
  destruct (merged_inv sv query top_k) as (_ & Hb & _).
  destruct (Hb k c Hin) as (v & m & Hs & Hk%Qgt_bool_iff & -> & _).
  split; [now apply round3_threshold|]. now exists v, m.
Qed.

(** C5, counterexample: a match of score 0.27 is returned, below 0.3. *)
Lemma C5_score_below_0_3_is_returned :
  exists contacts tr,
    _search_contacts (one_match_services "Al" 0.27) "pm" 5 []
    = (Returned contacts, tr)
    /\ ~ Forall (fun c => (0.3 <= score c)%Q) contacts.
Proof.
  eexists _, _. split; [vm_compute; reflexivity|].
  intros H. apply Forall_cons in H as [H _]. vm_compute in H. now apply H.
Qed.

(** C6: for a non-negative [top_k], the returned list is the values of the
    deduplication mapping, in insertion order, sorted by descending score
    with contacts of equal score left in that order, and cut to at most
    [top_k] contacts. *)
Theorem C6_sorted_stable_truncated (sv : Services) (query : string)
    (top_k : Z) :
  (0 <= top_k)%Z ->
  exists st tr contacts tr',
    search_variations sv top_k query (_preprocess_query query)
      (initial_state query) []
    = (Returned st, tr)
    /\ _search_contacts sv query top_k [] = (Returned contacts, tr')
    /\ ranked (PyDict.values (all_contacts st)) top_k contacts.
Proof.
  intros Hk.
  destruct (search_variations_run sv top_k query (_preprocess_query query)
              (initial_state query) []) as [tr Hst].
  destruct (search_contacts_run sv top_k query []) as [tr' H].
  exists (merged sv query top_k), tr, (search_result sv query top_k), tr'.
  split; [exact Hst|]. split; [exact H|].
  exists (sort_by_score_desc
            (PyDict.values (all_contacts (merged sv query top_k)))).
  split; [apply sort_perm|]. split; [apply sort_sorted|].
  split; [intros s; apply with_score_sort|].
  unfold search_result. rewrite (slice_to_nonneg _ _ Hk).
  split; [reflexivity|]. rewrite length_take. lia.
Qed.

Lemma C6_sorted_stable_truncated_witness :
  (0 <= 2)%Z
  /\ exists st tr contacts tr',
       search_variations tie_services 2 "designer"
         (_preprocess_query "designer") (initial_state "designer") []
       = (Returned st, tr)
       /\ _search_contacts tie_services "designer" 2 []
          = (Returned contacts, tr')
       /\ ranked (PyDict.values (all_contacts st)) 2 contacts.
Proof.
  split; [lia|].
  apply (C6_sorted_stable_truncated tie_services "designer" 2). lia.
Defined.

(** A match without metadata, without a name or with an empty name is
    stored under the empty key. A returned list has at most one contact
    with the empty name, however many such matches the index returned; that
    contact was made from one of them and no kept match without a name has
    a higher rounded score. Which of the matches it was made from is not
    settled by this. *)
Lemma unnamed_matches_share_one_entry (sv : Services) (query : string)
    (top_k : Z) :
  (forall m : Match,
     match match_metadata m with
     | None => True
     | Some md => md !! "name" = None \/ md !! "name" = Some EmptyString
     end ->
     md_get m "name" = EmptyString)
  /\ exists contacts tr,
       _search_contacts sv query top_k [] = (Returned contacts, tr)
       /\ length (List.filter (fun c => String.eqb (name c) EmptyString) contacts) <= 1
       /\ forall c, c ∈ contacts -> name c = EmptyString ->
            (exists v m, (v, m) ∈ visited sv query top_k /\ kept m
                         /\ c = make_contact v m)
            /\ (forall v m, (v, m) ∈ visited sv query top_k -> kept m ->
                  md_get m "name" = EmptyString ->
                  (round3 (match_score m) <= score c)%Q).
Proof.
  split.
  { intros m. unfold md_get.
    destruct (match_metadata m) as [md|]; simpl; [|reflexivity].
    intros [H|H]; now rewrite H. }
  destruct (search_contacts_run sv top_k query []) as [tr H].
  exists (search_result sv query top_k), tr. split; [exact H|].
  split; [apply NoDup_names_at_most_one, search_result_names_NoDup|].
  intros c [k Hin]%search_result_elem Hname.
  destruct (merged_inv sv query top_k) as (Hnd & Hb & Hc).
  destruct (Hb k c Hin) as (v & m & Hs & Hk & Hcm & Hkm). split.
  - now exists v, m.
  - intros v' m' Hs' Hk' Hn'. destruct (Hc v' m' Hs' Hk') as (c' & Hg & Hle).
    assert (k = EmptyString) as ->
      by (rewrite Hcm in Hname; cbn [name make_contact] in Hname; congruence).
    rewrite Hn' in Hg. rewrite (elem_get _ _ _ Hnd Hin) in Hg.
    now injection Hg as <-.
Qed.

(** ** The response formatter *)

(** C7, as the code has it: for more than 3 contacts the response lists
    the snippets of exactly the first 3, all joined with ", ", and ends
    with ", and N more." where N counts the contacts after the third. *)
Theorem C7_first_three_then_more (contacts : list Contact) (query : string) :
  3 < length contacts ->
  let by_company := group_by_company contacts in
  let snippets := map (snippet by_company) (take 3 contacts) in
  length snippets = 3
  /\ _format_contact_response contacts query
     = ("I found " +:+ PyStr.str_of_nat (length contacts)
          +:+ " people matching '" +:+ query +:+ "'. ")
       +:+ match by_company with
           | [(comp, _)] => "They all work at " +:+ comp +:+ ". "
           | _ => EmptyString
           end
       +:+ "Here are a few: " +:+ PyStr.join ", " snippets
       +:+ ", and " +:+ PyStr.str_of_nat (length contacts - 3) +:+ " more.".
Proof.
  intros Hlen by_company snippets. split.
  - unfold snippets. rewrite length_map, length_take. lia.
  - destruct contacts as [|c1 [|c2 contacts']]; [simpl in Hlen; lia..|].
    unfold _format_contact_response, format_many_contacts.
    fold by_company. fold snippets.
    rewrite (proj2 (Nat.ltb_lt _ _) Hlen).
    destruct by_company as [|[comp l] [|]];
      rewrite ?string_app_assoc; reflexivity.
Qed.

Lemma C7_first_three_then_more_witness :
  3 < length five_contacts
  /\ (length (map (snippet (group_by_company five_contacts))
                (take 3 five_contacts)) = 3
      /\ _format_contact_response five_contacts "team"
         = "I found 5 people matching 'team'. Here are a few: Ann at Acme, Bob at Acme, Cy at Acme, and 2 more.").
Proof.
  split; [vm_compute; lia|].
  apply (C7_first_three_then_more five_contacts "team"). vm_compute. lia.
Defined.

(** C7, counterexample: for five contacts of two companies the snippets
    are joined "Ann at Acme, Bob at Acme, Cy at Acme" and followed by
    ", and 2 more."; the response contains neither the list joined with
    " and " before its last item nor "and 2 others". *)
Lemma C7_no_and_join_no_others :
  3 < length five_contacts
  /\ _format_contact_response five_contacts "team"
     = "I found 5 people matching 'team'. Here are a few: Ann at Acme, Bob at Acme, Cy at Acme, and 2 more."
  /\ spec_join_and ["Ann at Acme"; "Bob at Acme"; "Cy at Acme"]
     = "Ann at Acme, Bob at Acme and Cy at Acme"
  /\ ~ occurs_in
         (spec_join_and ["Ann at Acme"; "Bob at Acme"; "Cy at Acme"])
         (_format_contact_response five_contacts "team")
  /\ ~ occurs_in (spec_remainder 2)
         (_format_contact_response five_contacts "team").
Proof.
  split; [vm_compute; lia|]. split; [reflexivity|]. split; [reflexivity|].
  split; intros H%contains_occurs; vm_compute in H; discriminate.
Qed.

(** * Further properties of the code *)

(** ** The query expander *)

Section ExpanderExtras.
Import PyStr.

Lemma plural_step_eq (words : list string) (iw : nat * string) :
  plural_step words [] iw = plural_of_token words iw.
Proof.
  destruct iw as [i word]. unfold plural_step, plural_of_token.
  destruct (endswith_char (lower word) "s"),
    (3 <? String.length (lower word)), (4 <? String.length (lower word));
    reflexivity.
Qed.

Lemma length_enumerate_from {A} (l : list A) (k : nat) :
  length (enumerate_from k l) = length l.
Proof. revert k. induction l as [|x l IH]; intros k; simpl; auto. Qed.

Lemma length_flat_map_le {A B} (f : A -> list B) (l : list A) :
  (forall x, length (f x) <= 1) -> length (flat_map f l) <= length l.
Proof.
  intros Hf. induction l as [|x l IH]; simpl; [lia|].
  rewrite length_app. specialize (Hf x). lia.
Qed.

(** What the duplicate filter maintains. *)
Lemma unique_loop_spec (l : list string) (seen : gset string)
    (acc : list string) :
  (forall x, x ∈ seen <-> x ∈ map lower acc) ->
  NoDup (map lower acc) ->
  exists rest,
    snd (fold_left unique_step l (seen, acc)) = acc ++ rest
    /\ rest `sublist_of` l
    /\ NoDup (map lower (acc ++ rest))
    /\ (forall v, v ∈ l -> lower v ∈ map lower (acc ++ rest)).
Proof.
  revert seen acc. induction l as [|v l IH]; intros seen acc Hseen Hnd.
  - exists []. rewrite app_nil_r. repeat split; auto.
    intros v H. inversion H.
  - cbn [fold_left unique_step].
    destruct (decide (lower v ∈ seen)) as [Hin|Hnotin].
    + destruct (IH seen acc Hseen Hnd) as (rest & -> & Hsub & Hnd' & Hall).
      exists rest. split; [reflexivity|]. split; [now apply sublist_cons|].
      split; [exact Hnd'|].
      intros w [->|Hw]%elem_of_cons; [|now apply Hall].
      rewrite map_app. apply elem_of_app. left. now apply Hseen.
    + destruct (IH ({[lower v]} ∪ seen) (acc ++ [v]))
        as (rest & -> & Hsub & Hnd' & Hall).
      * intros x. rewrite elem_of_union, elem_of_singleton, Hseen, map_app.
        rewrite elem_of_app. simpl. rewrite list_elem_of_singleton. tauto.
      * rewrite map_app. apply NoDup_app. split; [exact Hnd|].
        split; [|apply NoDup_singleton].
        intros x Hx ->%list_elem_of_singleton. now apply Hnotin, Hseen.
      * exists (v :: rest). rewrite <- app_assoc in *. simpl in *.
        split; [reflexivity|]. split; [now apply sublist_skip|].
        split; [exact Hnd'|].
        intros w [->|Hw]%elem_of_cons; [|now apply Hall].
        rewrite map_app. apply elem_of_app. right. simpl. now left.
Qed.

Lemma remove_duplicates_spec (l : list string) :
  remove_duplicates l `sublist_of` l
  /\ NoDup (map lower (remove_duplicates l))
  /\ (forall v, v ∈ l -> lower v ∈ map lower (remove_duplicates l)).
Proof.
  destruct (unique_loop_spec l ∅ []) as (rest & H & Hsub & Hnd & Hall).
  - intros x. simpl. split; intros Hx; [now apply not_elem_of_empty in Hx|].
    inversion Hx.
  - constructor.
  - unfold remove_duplicates. rewrite H. simpl in *. auto.
Qed.

Lemma sublist_map_NoDup {A B} (f : A -> B) (l k : list A) :
  l `sublist_of` k -> NoDup (map f k) -> NoDup (map f l).
Proof.
  induction 1 as [|x l k Hs IH|x l k _ IH]; simpl; intros Hnd.
  - constructor.
  - apply NoDup_cons in Hnd as [Hx Hnd]. apply NoDup_cons.
    split; [|auto]. intros Hin. apply Hx.
    apply list_elem_of_In, in_map_iff in Hin as (y & <- & Hy).
    apply list_elem_of_In, in_map_iff. exists y. split; [reflexivity|].
    apply list_elem_of_In. eapply elem_of_sublist; [|exact Hs].
    now apply list_elem_of_In.
  - apply NoDup_cons in Hnd as [_ Hnd]. auto.
Qed.

End ExpanderExtras.

(** X1: no two of the returned variants are equal up to letter case. *)
Theorem X1_variants_distinct_ignoring_case (query : string) :
  NoDup (map PyStr.lower (_preprocess_query query)).
Proof.
  unfold _preprocess_query.
  destruct (remove_duplicates_spec (all_variations query)) as (_ & Hnd & _).
  eapply sublist_map_NoDup; [apply sublist_take|exact Hnd].
Qed.

(** X2: the returned variants are the generated ones in their order of
    generation (the stripped query, the corrections, the singular and
    plural forms, the role expansions) with some left out; what the
    duplicate filter leaves out is, up to letter case, equal to a variant
    it keeps, and the rest is cut after the fifth. *)
Theorem X2_variants_in_generation_order (query : string) :
  _preprocess_query query
  `sublist_of` (PyStr.strip query
                :: correction_variants query ++ plural_variants query
                   ++ expansion_variants query)
  /\ (forall v, v ∈ all_variations query ->
        exists w, w ∈ remove_duplicates (all_variations query)
                  /\ PyStr.lower w = PyStr.lower v).
Proof.
  destruct (remove_duplicates_spec (all_variations query)) as (Hsub & _ & Hall).
  split.
  - rewrite <- all_variations_eq. unfold _preprocess_query.
    etransitivity; [apply sublist_take|exact Hsub].
  - intros v Hv. specialize (Hall v Hv).
    apply list_elem_of_In, in_map_iff in Hall as (w & Hw & Hin).
    exists w. split; [now apply list_elem_of_In|exact Hw].
Qed.

(** X3: in the singular/plural step a token gives at most one variant: a
    token whose lowercased form ends in "s" loses its last character when
    that lowercased form has more than 4 characters, any other token gains
    an "s" when its lowercased form has more than 3; so there are at most
    as many such variants as tokens. *)
Theorem X3_one_plural_variant_per_token (query : string) :
  plural_variants query
  = flat_map (plural_of_token (PyStr.split query))
      (enumerate (PyStr.split query))
  /\ length (plural_variants query) <= length (PyStr.split query).
Proof.
  assert (H : plural_variants query
              = flat_map (plural_of_token (PyStr.split query))
                  (enumerate (PyStr.split query))).
  { unfold plural_variants, add_plurals.
    rewrite (fold_left_append_only (plural_step _))
      by auto using plural_step_app.
    rewrite app_nil_l. apply flat_map_ext. intros iw. apply plural_step_eq. }
  split; [exact H|]. rewrite H.
  etransitivity; [apply length_flat_map_le|].
  - intros [i word]. unfold plural_of_token.
    destruct (PyStr.endswith_char _ _),
      (4 <? String.length (PyStr.lower word)),
      (3 <? String.length (PyStr.lower word)); simpl; lia.
  - unfold enumerate. now rewrite length_enumerate_from.
Qed.

(** X4: the corrections and the role expansions do not depend on the
    letter case of the query: two queries equal up to case get the same
    ones. *)
Theorem X4_corrections_ignore_case (q1 q2 : string) :
  PyStr.lower q1 = PyStr.lower q2 ->
  correction_variants q1 = correction_variants q2
  /\ expansion_variants q1 = expansion_variants q2.
Proof.
  intros H.
  unfold correction_variants, apply_corrections, expansion_variants,
    add_expansions.
  now rewrite H.
Qed.

Lemma X4_corrections_ignore_case_witness :
  PyStr.lower "Find DevOps PM" = PyStr.lower "find devops pm"
  /\ (correction_variants "Find DevOps PM" = correction_variants "find devops pm"
      /\ expansion_variants "Find DevOps PM"
         = expansion_variants "find devops pm").
Proof.
  split; [reflexivity|].
  apply (X4_corrections_ignore_case "Find DevOps PM" "find devops pm").
  reflexivity.
Defined.

(** ** The candidate merger *)

Section MergerExtras.
Variables (sv : Services) (top_k : Z) (query : string).

Lemma try_variation_trace (st : search_state) (v : string) (tr : list call) :
  snd (try_except (search_variation sv top_k query st v) (ret st) tr)
  = tr ++ trace_of_variation sv top_k v.
Proof.
  unfold try_except, search_variation, bind, do_embed, do_query, ret,
    trace_of_variation.
  destruct (embeddings_create sv v) as [e|];
    [destruct (index_query sv e (top_k * 2)) as [ms|]|]; simpl;
    now rewrite <- ?app_assoc.
Qed.

Lemma search_variations_trace (vs : list string) (st : search_state)
    (tr : list call) :
  snd (search_variations sv top_k query vs st tr)
  = tr ++ flat_map (trace_of_variation sv top_k) vs.
Proof.
  unfold search_variations. revert st tr.
  induction vs as [|v vs IH]; intros st tr.
  - simpl. now rewrite app_nil_r.
  - cbn [for_each flat_map]. unfold bind at 1.
    pose proof (try_variation_trace st v tr) as Ht.
    destruct (try_variation_run sv top_k query st v tr) as [tr1 Hrun].
    rewrite Hrun in Ht |- *. simpl in Ht. rewrite IH, Ht.
    now rewrite <- app_assoc.
Qed.

Lemma search_contacts_trace :
  _search_contacts sv query top_k []
  = (Returned (search_result sv query top_k),
     flat_map (trace_of_variation sv top_k) (_preprocess_query query)).
Proof.
  destruct (search_contacts_run sv top_k query []) as [tr H].
  rewrite H. f_equal.
  assert (Hs : snd (_search_contacts sv query top_k []) = [] ++ tr)
    by now rewrite H.
  rewrite <- Hs. unfold _search_contacts, try_except, bind.
  pose proof (search_variations_trace (_preprocess_query query)
                (initial_state query) []) as Ht.
  destruct (search_variations_run sv top_k query (_preprocess_query query)
              (initial_state query) []) as [tr' Hrun].
  rewrite Hrun in Ht |- *. exact Ht.
Qed.

Lemma embed_inputs_trace (vs : list string) :
  embed_inputs (flat_map (trace_of_variation sv top_k) vs) = vs.
Proof.
  unfold embed_inputs.
  induction vs as [|v vs IH]; [reflexivity|]. cbn [flat_map].
  rewrite omap_app, IH. unfold trace_of_variation.
  now destruct (embeddings_create sv v).
Qed.

Lemma length_trace (vs : list string) :
  length (flat_map (trace_of_variation sv top_k) vs) <= 2 * length vs.
Proof.
  induction vs as [|v vs IH]; [simpl; lia|].
  cbn [flat_map length]. rewrite length_app.
  assert (length (trace_of_variation sv top_k v) <= 2).
  { unfold trace_of_variation. destruct (embeddings_create sv v); simpl; lia. }
  lia.
Qed.

Lemma queries_in_trace (vs : list string) (e : Embedding) (k : Z) :
  CallQuery e k ∈ flat_map (trace_of_variation sv top_k) vs ->
  k = (top_k * 2)%Z /\ exists v, v ∈ vs /\ embeddings_create sv v = Some e.
Proof.
  intros H. apply list_elem_of_In, in_flat_map in H as (v & Hv & H).
  unfold trace_of_variation in H.
  destruct (embeddings_create sv v) as [e'|] eqn:He; simpl in H.
  - destruct H as [H|[H|[]]]; [discriminate|]. injection H as -> ->.
    split; [reflexivity|]. exists v. split; [now apply list_elem_of_In|exact He].
  - destruct H as [H|[]]. discriminate.
Qed.

Lemma visited_elem (v : string) (m : Match) :
  (v, m) ∈ visited sv query top_k ->
  v ∈ _preprocess_query query
  /\ exists ms, variation_matches sv top_k v = Some ms /\ m ∈ ms.
Proof.
  unfold visited, flat_results, successful_results.
  intros H. apply list_elem_of_In, in_flat_map in H as ([v' ms] & Hr & H).
  simpl in H. apply in_map_iff in H as (m' & [= -> ->] & Hm).
  apply list_elem_of_In, list_elem_of_omap in Hr as (w & Hw & Hr).
  destruct (variation_matches sv top_k w) as [ms'|] eqn:E; [|discriminate].
  injection Hr as -> ->. split; [exact Hw|].
  exists ms. split; [exact E|now apply list_elem_of_In].
Qed.

End MergerExtras.

Lemma process_match_unkept (query v : string) (st : search_state)
    (m : Match) :
  kept_b m = false -> process_match query v st m = st.
Proof. unfold kept_b, process_match. now intros ->. Qed.

Lemma fold_process_filter_kept (query v : string) (ms : list Match)
    (st : search_state) :
  fold_left (process_match query v) (List.filter kept_b ms) st
  = fold_left (process_match query v) ms st.
Proof.
  revert st. induction ms as [|m ms IH]; intros st; simpl; [reflexivity|].
  destruct (kept_b m) eqn:E; simpl; [apply IH|].
  now rewrite (process_match_unkept _ _ _ _ E).
Qed.

Lemma variation_matches_without_unkept (sv : Services) (top_k : Z)
    (v : string) :
  variation_matches (without_unkept sv) top_k v
  = match variation_matches sv top_k v with
    | Some ms => Some (List.filter kept_b ms)
    | None => None
    end.
Proof.
  unfold variation_matches. cbn [without_unkept embeddings_create index_query].
  now destruct (embeddings_create sv v).
Qed.

Lemma merge_without_unkept (sv : Services) (top_k : Z) (query : string)
    (vs : list string) (st : search_state) :
  merge_matches query (successful_results (without_unkept sv) top_k vs) st
  = merge_matches query (successful_results sv top_k vs) st.
Proof.
  unfold merge_matches, successful_results. revert st.
  induction vs as [|v vs IH]; intros st; [reflexivity|].
  cbn [omap list_omap]. rewrite variation_matches_without_unkept.
  destruct (variation_matches sv top_k v) as [ms|]; [|apply IH].
  cbn [fold_left fst snd]. rewrite fold_process_filter_kept. apply IH.
Qed.

Lemma take_short {A} (l : list A) (n : nat) :
  length (take n l) < n -> take n l = l.
Proof. rewrite length_take. intros H. apply take_ge. lia. Qed.

(** X5: whatever the services answer, no two returned contacts have the
    same name. *)
Theorem X5_returned_names_distinct (sv : Services) (query : string)
    (top_k : Z) :
  exists contacts tr,
    _search_contacts sv query top_k [] = (Returned contacts, tr)
    /\ NoDup (map name contacts).
Proof.
  eexists _, _.
  split; [apply search_contacts_trace|apply search_result_names_NoDup].
Qed.

(** X6: a returned contact carries the highest score, rounded to three
    decimals, among the matches of its name that passed the relevance
    filter in any variation whose calls returned, and one of those matches
    has exactly that rounded score. *)
Theorem X6_returned_score_is_highest (sv : Services) (query : string)
    (top_k : Z) :
  exists contacts tr,
    _search_contacts sv query top_k [] = (Returned contacts, tr)
    /\ forall c, c ∈ contacts ->
         (exists v m, (v, m) ∈ visited sv query top_k /\ kept m
                      /\ md_get m "name" = name c
                      /\ score c = round3 (match_score m))
         /\ (forall v m, (v, m) ∈ visited sv query top_k -> kept m ->
               md_get m "name" = name c ->
               (round3 (match_score m) <= score c)%Q).
Proof.
  eexists _, _. split; [apply search_contacts_trace|].
  intros c [k Hin]%search_result_elem.
  destruct (merged_inv sv query top_k) as (Hnd & Hb & Hc).
  destruct (Hb k c Hin) as (v & m & Hs & Hk & Hcm & Hkm). split.
  - exists v, m. subst c. auto.
  - intros v' m' Hs' Hk' Hn'. destruct (Hc v' m' Hs' Hk') as (c' & Hg & Hle).
    assert (k = name c) as -> by (subst c; exact Hkm).
    rewrite Hn', (elem_get _ _ _ Hnd Hin) in Hg. now injection Hg as <-.
Qed.

(** X7: the [query_used] of a returned contact is one of the variants of
    the query, one whose embedding and index calls both returned, and the
    contact was made from a match that this variant's index query
    returned and that passed the relevance filter. *)
Theorem X7_query_used_is_a_searched_variant (sv : Services) (query : string)
    (top_k : Z) :
  exists contacts tr,
    _search_contacts sv query top_k [] = (Returned contacts, tr)
    /\ forall c, c ∈ contacts ->
         query_used c ∈ _preprocess_query query
         /\ exists ms m,
              variation_matches sv top_k (query_used c) = Some ms
              /\ m ∈ ms /\ kept m /\ c = make_contact (query_used c) m.
Proof.
  eexists _, _. split; [apply search_contacts_trace|].
  intros c [k Hin]%search_result_elem.
  destruct (merged_inv sv query top_k) as (_ & Hb & _).
  destruct (Hb k c Hin) as (v & m & Hs & Hk & -> & _).
  apply visited_elem in Hs as (Hv & ms & Hms & Hm).
  split; [exact Hv|]. now exists ms, m.
Qed.

(** X8: a retrieval calls the embedding service exactly once for each
    variant, in the order of the variants, whether or not earlier calls
    failed; each index query follows a successful embedding of a variant,
    uses its vector and asks for [2 * top_k] neighbours; nothing is
    retried, so there are at most 10 calls. *)
Theorem X8_service_calls (sv : Services) (query : string) (top_k : Z) :
  let tr := snd (_search_contacts sv query top_k []) in
  tr = flat_map (trace_of_variation sv top_k) (_preprocess_query query)
  /\ embed_inputs tr = _preprocess_query query
  /\ length tr <= 10
  /\ (forall e k, CallQuery e k ∈ tr ->
        k = (top_k * 2)%Z
        /\ exists v, v ∈ _preprocess_query query
                     /\ embeddings_create sv v = Some e).
Proof.
  intros tr. subst tr. rewrite search_contacts_trace. cbn [snd].
  split; [reflexivity|]. split; [apply embed_inputs_trace|]. split.
  - etransitivity; [apply length_trace|].
    destruct (preprocess_query_shape query) as (rest & -> & H). simpl. lia.
  - intros e k. apply queries_in_trace.
Qed.

(** X9: the matches that do not pass the relevance filter (score at most
    0.25) have no effect: an index that leaves them out gives the same
    returned list. *)
Theorem X9_unkept_matches_have_no_effect (sv : Services) (query : string)
    (top_k : Z) :
  fst (_search_contacts (without_unkept sv) query top_k [])
  = fst (_search_contacts sv query top_k []).
Proof.
  rewrite !search_contacts_trace. cbn [fst]. f_equal.
  unfold search_result, merged. now rewrite merge_without_unkept.
Qed.

(** X10: when fewer than [top_k] contacts are returned nothing was cut
    off: every match that passed the relevance filter, in a variation
    whose calls returned, has a returned contact of its name, with at
    least its rounded score. *)
Theorem X10_nothing_lost_below_top_k (sv : Services) (query : string)
    (top_k : Z) (contacts : list Contact) (v : string) (m : Match) :
  fst (_search_contacts sv query top_k []) = Returned contacts ->
  (Z.of_nat (length contacts) < top_k)%Z ->
  (v, m) ∈ visited sv query top_k ->
  kept m ->
  exists c, c ∈ contacts /\ name c = md_get m "name"
            /\ (round3 (match_score m) <= score c)%Q.
Proof.
  rewrite search_contacts_trace. cbn [fst]. intros [= <-] Hlen Hs Hk.
  unfold search_result in *.
  rewrite slice_to_nonneg in * by lia.
  rewrite take_short in * by lia.
  destruct (merged_inv sv query top_k) as (_ & Hb & Hc).
  destruct (Hc v m Hs Hk) as (c & Hg%get_Some_elem & Hle).
  exists c. split; [|split; [|exact Hle]].
  - rewrite sort_perm. unfold PyDict.values.
    apply list_elem_of_In, in_map_iff. exists (md_get m "name", c).
    split; [reflexivity|now apply list_elem_of_In].
  - destruct (Hb _ _ Hg) as (v' & m' & _ & _ & -> & Hn). now rewrite Hn.
Qed.

Lemma X10_nothing_lost_below_top_k_witness :
  fst (_search_contacts tie_services "designer" 5 [])
  = Returned [sam_lee_contact (500 # 1000) "designers"]
  /\ (Z.of_nat (length [sam_lee_contact (500 # 1000) "designers"]) < 5)%Z
  /\ ("designer", sam_lee 0.5004) ∈ visited tie_services "designer" 5
  /\ kept (sam_lee 0.5004)
  /\ exists c, c ∈ [sam_lee_contact (500 # 1000) "designers"]
               /\ name c = md_get (sam_lee 0.5004) "name"
               /\ (round3 (match_score (sam_lee 0.5004)) <= score c)%Q.
Proof.
  assert (H1 : fst (_search_contacts tie_services "designer" 5 [])
               = Returned [sam_lee_contact (500 # 1000) "designers"])
    by (vm_compute; reflexivity).
  assert (H2 : (Z.of_nat (length [sam_lee_contact (500 # 1000) "designers"])
                < 5)%Z) by (simpl; lia).
  assert (H3 : ("designer", sam_lee 0.5004)
               ∈ visited tie_services "designer" 5)
    by (apply list_elem_of_In; vm_compute; left; reflexivity).
  assert (H4 : kept (sam_lee 0.5004)) by reflexivity.
  repeat (split; [assumption|]).
  exact (X10_nothing_lost_below_top_k tie_services "designer" 5 _
           "designer" (sam_lee 0.5004) H1 H2 H3 H4).
Defined.

(** ** The response formatter *)

Section FormatterExtras.
Import PyStr.

Lemma contains_manager_manag (s : string) :
  contains "manager" s = true -> contains "manag" s = true.
Proof.
  rewrite !contains_occurs. intros (pre & post & ->).
  exists pre, ("er" +:+ post). reflexivity.
Qed.

Lemma format_no_contacts_eq (query : string) :
  format_no_contacts query
  = "I searched for '" +:+ query +:+ "' but found no matches. "
      +:+ apology_tail query.
Proof.
  unfold format_no_contacts, suggestions_for, apology_tail.
  destruct (contains "engineer" (lower query));
    [now rewrite !string_app_assoc|].
  destruct (contains "design" (lower query));
    [now rewrite !string_app_assoc|].
  destruct (contains "manag" (lower query)) eqn:Hm.
  - rewrite orb_true_r. now rewrite !string_app_assoc.
  - destruct (contains "manager" (lower query)) eqn:Hr.
    + apply contains_manager_manag in Hr. congruence.
    + simpl orb. destruct (contains "dev" (lower query));
        now rewrite !string_app_assoc.
Qed.

Lemma with_field_cases (pre s post : string) :
  (truthy s = true /\ with_field pre s post = pre +:+ s +:+ post)
  \/ (truthy s = false /\ with_field pre s post = EmptyString).
Proof. unfold with_field. destruct (truthy s); auto. Qed.

Lemma string_app_nil_r (a : string) : a +:+ EmptyString = a.
Proof. induction a as [|x a IH]; simpl; [reflexivity|]. now rewrite IH. Qed.

End FormatterExtras.

(** X11: with no contacts the response is "I searched for '<query>' but
    found no matches. " followed by one fixed ending, chosen by the first
    of the keywords "engineer", "design", "manag", "dev" that the
    lowercased query contains, or by a question when it contains none. *)
Theorem X11_apology_for_no_contacts (query : string) :
  _format_contact_response [] query
  = "I searched for '" +:+ query +:+ "' but found no matches. "
      +:+ apology_tail query.
Proof. apply format_no_contacts_eq. Qed.

(** X12: for one contact the response is "I found <name>" followed, for
    each of title, company, location and industry that is not empty, by
    " a <title>", " at <company>", " in <location>", " in the <industry>
    industry", and a full stop; an empty field leaves nothing behind. *)
Theorem X12_sentence_for_one_contact (c : Contact) (query : string) :
  _format_contact_response [c] query
  = "I found " +:+ name c
      +:+ with_field " a " (title c) EmptyString
      +:+ with_field " at " (company c) EmptyString
      +:+ with_field " in " (location c) EmptyString
      +:+ with_field " in the " (industry c) " industry"
      +:+ ".".
Proof.
  unfold _format_contact_response, format_one_contact.
  destruct (with_field_cases " a " (title c) EmptyString) as [[-> ->]|[-> ->]],
    (with_field_cases " at " (company c) EmptyString) as [[-> ->]|[-> ->]],
    (with_field_cases " in " (location c) EmptyString) as [[-> ->]|[-> ->]],
    (with_field_cases " in the " (industry c) " industry")
      as [[-> ->]|[-> ->]];
    cbn [app PyStr.join String.concat];
    rewrite ?string_app_assoc, ?string_app_nil_r; cbn [String.append];
    rewrite ?string_app_assoc, ?string_app_nil_r; reflexivity.
Qed.

Section GroupingFacts.

Lemma group_step_get (d : PyDict.t (list Contact)) (c : Contact)
    (b : string) :
  PyDict.get b (group_step d c)
  = if in_bucket b c
    then Some (default [] (PyDict.get b d) ++ [c])
    else PyDict.get b d.
Proof.
  unfold group_step, in_bucket. fold (company_bucket c).
  destruct (String.eqb_spec (company_bucket c) b) as [<-|Hne].
  - apply get_set_eq.
  - now apply get_set_ne.
Qed.

Lemma group_fold_get (cs seen : list Contact) (d : PyDict.t (list Contact)) :
  (forall b, PyDict.get b d
             = match List.filter (in_bucket b) seen with
               | [] => None
               | g => Some g
               end) ->
  forall b, PyDict.get b (fold_left group_step cs d)
            = match List.filter (in_bucket b) (seen ++ cs) with
              | [] => None
              | g => Some g
              end.
Proof.
  revert seen d. induction cs as [|c cs IH]; intros seen d Hd b.
  - rewrite app_nil_r. apply Hd.
  - cbn [fold_left]. rewrite (cons_middle c seen cs), app_assoc.
    apply IH. clear b. intros b. rewrite group_step_get, Hd, List.filter_app.
    cbn [List.filter]. destruct (in_bucket b c); [|now rewrite app_nil_r].
    destruct (List.filter (in_bucket b) seen) as [|x g]; reflexivity.
Qed.

Lemma group_by_company_get (cs : list Contact) (b : string) :
  PyDict.get b (group_by_company cs)
  = match List.filter (in_bucket b) cs with
    | [] => None
    | g => Some g
    end.
Proof. now apply (group_fold_get cs []). Qed.

Lemma group_step_keys_NoDup (d : PyDict.t (list Contact)) (c : Contact) :
  NoDup (PyDict.keys d) -> NoDup (PyDict.keys (group_step d c)).
Proof. apply NoDup_keys_set. Qed.

Lemma group_by_company_keys_NoDup (cs : list Contact) :
  NoDup (PyDict.keys (group_by_company cs)).
Proof.
  unfold group_by_company.
  assert (H : NoDup (PyDict.keys (@nil (string * list Contact))))
    by constructor.
  revert H. generalize (@nil (string * list Contact)).
  induction cs as [|c cs IH]; intros d Hd; [exact Hd|].
  apply IH, group_step_keys_NoDup, Hd.
Qed.

Lemma group_fold_single (cs acc : list Contact) (b : string) :
  (forall c, c ∈ cs -> company_bucket c = b) ->
  fold_left group_step cs [(b, acc)] = [(b, acc ++ cs)].
Proof.
  revert acc. induction cs as [|c cs IH]; intros acc Hb.
  - now rewrite app_nil_r.
  - cbn [fold_left]. unfold group_step at 2. fold (company_bucket c).
    rewrite (Hb c) by now left. cbn [PyDict.get PyDict.set].
    rewrite String.eqb_refl. cbn [default from_option id].
    rewrite IH by (intros x Hx; apply Hb; now right).
    now rewrite <- app_assoc.
Qed.

Lemma group_by_company_single (c : Contact) (cs : list Contact) (b : string) :
  (forall x, x ∈ c :: cs -> company_bucket x = b) ->
  group_by_company (c :: cs) = [(b, c :: cs)].
Proof.
  intros Hb. unfold group_by_company. cbn [fold_left].
  unfold group_step at 2. fold (company_bucket c).
  rewrite (Hb c) by now left. cbn [PyDict.get PyDict.set default app].
  apply (group_fold_single cs [c] b). intros x Hx. apply Hb. now right.
Qed.

Lemma group_by_company_two (cs : list Contact) (c1 c2 : Contact) :
  c1 ∈ cs -> c2 ∈ cs -> company_bucket c1 <> company_bucket c2 ->
  2 <= length (group_by_company cs).
Proof.
  intros H1 H2 Hne.
  assert (Hk : forall c, c ∈ cs ->
                 company_bucket c ∈ PyDict.keys (group_by_company cs)).
  { intros c Hc. destruct (decide (company_bucket c
                                   ∈ PyDict.keys (group_by_company cs)))
      as [H|H]; [exact H|].
    apply get_None_keys in H. rewrite group_by_company_get in H.
    destruct (List.filter (in_bucket (company_bucket c)) cs) eqn:E;
      [|discriminate].
    assert (Hin : In c (List.filter (in_bucket (company_bucket c)) cs)).
    { apply filter_In. split; [now apply list_elem_of_In|].
      unfold in_bucket. apply String.eqb_refl. }
    rewrite E in Hin. destruct Hin. }
  pose proof (Hk c1 H1) as K1. pose proof (Hk c2 H2) as K2.
  unfold PyDict.keys in *. rewrite <- (length_map fst).
  destruct (map fst (group_by_company cs)) as [|x [|y l]]; simpl; try lia.
  - inversion K1.
  - apply list_elem_of_singleton in K1, K2. congruence.
Qed.

Lemma snippet_eq (d : PyDict.t (list Contact)) (c : Contact) :
  snippet d c
  = name c +:+ with_field ", " (title c) EmptyString
      +:+ (if 1 <? length d
           then with_field " at " (company c) EmptyString
           else EmptyString).
Proof.
  unfold snippet, with_field.
  destruct (truthy (title c)), (truthy (company c)), (1 <? length d);
    cbn [andb]; rewrite ?string_app_assoc, ?string_app_nil_r; reflexivity.
Qed.

Lemma format_many_eq (contacts : list Contact) (query : string) :
  format_many_contacts contacts query
  = found_header (length contacts) query
      +:+ match group_by_company contacts with
          | [(comp, _)] => "They all work at " +:+ comp +:+ ". "
          | _ => EmptyString
          end
      +:+ "Here are a few: "
      +:+ PyStr.join ", "
            (map (snippet (group_by_company contacts)) (take 3 contacts))
      +:+ more_suffix (length contacts).
Proof.
  unfold format_many_contacts, more_suffix. fold (found_header (length contacts) query).
  destruct (group_by_company contacts) as [|[comp g] [|]],
    (3 <? length contacts);
    rewrite ?string_app_assoc, ?string_app_nil_r; reflexivity.
Qed.

End GroupingFacts.

(** X13: the contacts are grouped by company, a contact without a company
    under "Other": each group holds exactly the contacts of its company,
    in their order, a company without a contact has no group, and no
    company has two groups. *)
Theorem X13_groups_partition_the_contacts (contacts : list Contact)
    (b : string) :
  PyDict.get b (group_by_company contacts)
  = match List.filter (in_bucket b) contacts with
    | [] => None
    | g => Some g
    end
  /\ NoDup (PyDict.keys (group_by_company contacts)).
Proof.
  split; [apply group_by_company_get|apply group_by_company_keys_NoDup].
Qed.

(** X14: for two or more contacts that all have the same company, or all
    have none (the company is then "Other"), the response names that
    company once, "They all work at <company>. ", and the listed contacts
    are shown by name and title only. *)
Theorem X14_one_company_is_named_once (contacts : list Contact)
    (query b : string) :
  2 <= length contacts ->
  (forall c, c ∈ contacts -> company_bucket c = b) ->
  _format_contact_response contacts query
  = found_header (length contacts) query
      +:+ "They all work at " +:+ b +:+ ". "
      +:+ "Here are a few: "
      +:+ PyStr.join ", "
            (map (fun c => name c +:+ with_field ", " (title c) EmptyString)
                 (take 3 contacts))
      +:+ more_suffix (length contacts).
Proof.
  intros Hlen Hb.
  destruct contacts as [|c1 [|c2 cs]]; [simpl in Hlen; lia..|].
  unfold _format_contact_response. rewrite format_many_eq.
  rewrite (group_by_company_single c1 (c2 :: cs) b Hb).
  assert (Hm : map (snippet [(b, c1 :: c2 :: cs)]) (take 3 (c1 :: c2 :: cs))
               = map (fun c => name c
                               +:+ with_field ", " (title c) EmptyString)
                   (take 3 (c1 :: c2 :: cs))).
  { apply map_ext. intros c. rewrite snippet_eq. cbn [length Nat.ltb Nat.leb].
    now rewrite string_app_nil_r. }
  rewrite Hm. now rewrite !string_app_assoc.
Qed.

Lemma X14_one_company_is_named_once_witness :
  2 <= length [person "Ann" EmptyString; person "Bob" EmptyString]
  /\ (forall c, c ∈ [person "Ann" EmptyString; person "Bob" EmptyString] ->
        company_bucket c = "Other")
  /\ _format_contact_response
       [person "Ann" EmptyString; person "Bob" EmptyString] "team"
     = "I found 2 people matching 'team'. They all work at Other. Here are a few: Ann, Bob".
Proof.
  assert (H1 : 2 <= length [person "Ann" EmptyString;
                            person "Bob" EmptyString]) by (simpl; lia).
  assert (H2 : forall c,
             c ∈ [person "Ann" EmptyString; person "Bob" EmptyString] ->
             company_bucket c = "Other").
  { intros c Hc. apply list_elem_of_In in Hc.
    destruct Hc as [<-|[<-|[]]]; reflexivity. }
  split; [exact H1|]. split; [exact H2|].
  exact (X14_one_company_is_named_once _ "team" "Other" H1 H2).
Defined.

(** X15: when two of the contacts differ in company (a missing company
    counting as "Other"), the response has no "They all work at"
    sentence, and each listed contact that has a company is shown with
    " at <company>" after its name and title. *)
Theorem X15_several_companies_are_shown_per_contact
    (contacts : list Contact) (query : string) (c1 c2 : Contact) :
  c1 ∈ contacts -> c2 ∈ contacts ->
  company_bucket c1 <> company_bucket c2 ->
  _format_contact_response contacts query
  = found_header (length contacts) query
      +:+ "Here are a few: "
      +:+ PyStr.join ", "
            (map (fun c => name c +:+ with_field ", " (title c) EmptyString
                             +:+ with_field " at " (company c) EmptyString)
                 (take 3 contacts))
      +:+ more_suffix (length contacts).
Proof.
  intros H1 H2 Hne.
  pose proof (group_by_company_two contacts c1 c2 H1 H2 Hne) as Hg.
  destruct contacts as [|a [|a' cs]].
  - inversion H1.
  - apply list_elem_of_singleton in H1, H2. congruence.
  - unfold _format_contact_response. rewrite format_many_eq.
    assert (Hm : map (snippet (group_by_company (a :: a' :: cs)))
                   (take 3 (a :: a' :: cs))
                 = map (fun c => name c
                                 +:+ with_field ", " (title c) EmptyString
                                 +:+ with_field " at " (company c) EmptyString)
                     (take 3 (a :: a' :: cs))).
    { apply map_ext. intros c. rewrite snippet_eq.
      now rewrite (proj2 (Nat.ltb_lt 1 _) Hg). }
    rewrite Hm.
    destruct (group_by_company (a :: a' :: cs)) as [|[comp g] [|]];
      [simpl in Hg; lia..|]. reflexivity.
Qed.

Lemma X15_several_companies_are_shown_per_contact_witness :
  person "Ann" "Acme" ∈ five_contacts
  /\ person "Di" "Other Co" ∈ five_contacts
  /\ company_bucket (person "Ann" "Acme")
     <> company_bucket (person "Di" "Other Co")
  /\ _format_contact_response five_contacts "team"
     = "I found 5 people matching 'team'. Here are a few: Ann at Acme, Bob at Acme, Cy at Acme, and 2 more.".
Proof.
  assert (H1 : person "Ann" "Acme" ∈ five_contacts)
    by (apply list_elem_of_In; simpl; tauto).
  assert (H2 : person "Di" "Other Co" ∈ five_contacts)
    by (apply list_elem_of_In; simpl; tauto).
  assert (H3 : company_bucket (person "Ann" "Acme")
               <> company_bucket (person "Di" "Other Co"))
    by (vm_compute; discriminate).
  repeat (split; [assumption|]).
  exact (X15_several_companies_are_shown_per_contact five_contacts "team"
           _ _ H1 H2 H3).
Defined.

(** ** The search tool *)

Lemma trace_when_embedding_fails (sv : Services) (top_k : Z)
    (vs : list string) :
  (forall s, embeddings_create sv s = None) ->
  flat_map (trace_of_variation sv top_k) vs = map CallEmbed vs.
Proof.
  intros H. induction vs as [|v vs IH]; [reflexivity|].
  cbn [flat_map map]. rewrite IH. unfold trace_of_variation.
  now rewrite H.
Qed.

Lemma search_result_when_embedding_fails (sv : Services) (top_k : Z)
    (query : string) :
  (forall s, embeddings_create sv s = None) ->
  search_result sv query top_k = [].
Proof.
  intros H. unfold search_result, merged.
  rewrite successful_results_none; [apply slice_to_nil|].
  apply Forall_forall. intros v _. unfold variation_matches. now rewrite H.
Qed.

(** X16: the tool returns the formatted list of a retrieval for at most 5
    contacts, whatever the services do, and makes that retrieval's calls,
    at most 10. *)
Theorem X16_tool_formats_the_retrieval (sv : Services) (query : string) :
  exists contacts tr,
    _search_contacts sv query 5 [] = (Returned contacts, tr)
    /\ _search_contacts_tool sv query []
       = (Returned (_format_contact_response contacts query), tr)
    /\ length contacts <= 5
    /\ length tr <= 10.
Proof.
  eexists _, _. split; [apply search_contacts_trace|]. split.
  - unfold _search_contacts_tool, bind. now rewrite search_contacts_trace.
  - split.
    + unfold search_result. rewrite slice_to_nonneg by lia.
      rewrite length_take. lia.
    + etransitivity; [apply length_trace|].
      destruct (preprocess_query_shape query) as (rest & -> & H). simpl. lia.
Qed.

(** X17: when the embedding service fails on every input, the tool calls
    it once for each variant, never calls the index, and answers with the
    apology for no matches, the same answer as for an index without
    matches. *)
Theorem X17_services_down_reads_as_no_matches (sv : Services)
    (query : string) :
  (forall s, embeddings_create sv s = None) ->
  _search_contacts_tool sv query []
  = (Returned ("I searched for '" +:+ query +:+ "' but found no matches. "
                 +:+ apology_tail query),
     map CallEmbed (_preprocess_query query)).
Proof.
  intros H. unfold _search_contacts_tool, bind.
  rewrite search_contacts_trace, (search_result_when_embedding_fails _ _ _ H),
    (trace_when_embedding_fails _ _ _ H).
  unfold ret, _format_contact_response. now rewrite format_no_contacts_eq.
Qed.

Lemma X17_services_down_reads_as_no_matches_witness :
  (forall s, embeddings_create failing_services s = None)
  /\ _search_contacts_tool failing_services "designer" []
     = (Returned "I searched for 'designer' but found no matches. You might try searching for: designers, UX designers, UI designers.",
        [CallEmbed "designer"; CallEmbed "designers"; CallEmbed "design";
         CallEmbed "ux designer"; CallEmbed "ui designer"]).
Proof.
  assert (H : forall s, embeddings_create failing_services s = None)
    by reflexivity.
  split; [exact H|].
  exact (X17_services_down_reads_as_no_matches failing_services "designer" H).
Defined.

(** ** The memory tools *)

(** X18: when the request to the capture endpoint raises, the save tool
    does not raise and does not report trouble saving: the error dict has
    no confidence, so the answer is that no clear information about a
    person was found. *)
Theorem X18_failed_capture_reads_as_unclear (repr : json -> string)
    (post : Http) (memory_text e : string) :
  post "http://localhost:3000/api/capture-memory"
    (JObj [("text", JStr memory_text); ("userId", JStr "voice-user")])
  = HttpError e ->
  _capture_memory post memory_text
  = JObj [("success", JBool false); ("error", JStr e)]
  /\ _save_memory_tool repr post memory_text
     = Returned unclear_memory_response.
Proof.
  intros H. unfold _save_memory_tool, _capture_memory. rewrite H.
  split; reflexivity.
Qed.

Lemma X18_failed_capture_reads_as_unclear_witness :
  unreachable "http://localhost:3000/api/capture-memory"
    (JObj [("text", JStr "I met Sarah today"); ("userId", JStr "voice-user")])
  = HttpError "connection refused"
  /\ (_capture_memory unreachable "I met Sarah today"
      = JObj [("success", JBool false); ("error", JStr "connection refused")]
      /\ _save_memory_tool (fun _ => EmptyString) unreachable
           "I met Sarah today"
         = Returned unclear_memory_response).
Proof.
  split; [reflexivity|].
  apply (X18_failed_capture_reads_as_unclear (fun _ => EmptyString)
           unreachable "I met Sarah today" "connection refused").
  reflexivity.
Defined.

(** X19: when the request to the recall endpoint raises, the recall tool
    does not raise and answers that there are no matching memories. *)
Theorem X19_failed_recall_reads_as_no_memories (post : Http)
    (query e : string) :
  post "http://localhost:3000/api/recall-memory"
    (JObj [("query", JStr query); ("userId", JStr "voice-user")])
  = HttpError e ->
  _recall_memory_tool post query = Returned (JStr no_memories_response).
Proof.
  intros H. unfold _recall_memory_tool, _recall_memory. now rewrite H.
Qed.

Lemma X19_failed_recall_reads_as_no_memories_witness :
  unreachable "http://localhost:3000/api/recall-memory"
    (JObj [("query", JStr "Where does Sarah work?");
           ("userId", JStr "voice-user")])
  = HttpError "connection refused"
  /\ _recall_memory_tool unreachable "Where does Sarah work?"
     = Returned (JStr no_memories_response).
Proof.
  split; [reflexivity|].
  apply (X19_failed_recall_reads_as_no_memories unreachable
           "Where does Sarah work?" "connection refused").
  reflexivity.
Defined.

(** X20: when an endpoint answers with JSON that is not an object, the
    tools raise: the result is used as a dict without a check. *)
Theorem X20_non_object_answer_raises (repr : json -> string) (post : Http)
    (text : string) (body : json) :
  (forall url payload, post url payload = HttpJson body) ->
  (forall items, body <> JObj items) ->
  _save_memory_tool repr post text = Raised
  /\ _recall_memory_tool post text = Raised.
Proof.
  intros Hpost Hbody.
  unfold _save_memory_tool, _recall_memory_tool, _capture_memory,
    _recall_memory.
  rewrite !Hpost. destruct body; try (split; reflexivity).
  now destruct (Hbody items).
Qed.

Lemma X20_non_object_answer_raises_witness :
  (forall url payload, answers_with_array url payload = HttpJson (JArr []))
  /\ (forall items, JArr [] <> JObj items)
  /\ _save_memory_tool (fun _ => EmptyString) answers_with_array "I met Sarah"
     = Raised
  /\ _recall_memory_tool answers_with_array "I met Sarah" = Raised.
Proof.
  assert (H1 : forall url payload,
             answers_with_array url payload = HttpJson (JArr []))
    by reflexivity.
  assert (H2 : forall items, JArr [] <> JObj items) by discriminate.
  split; [exact H1|]. split; [exact H2|].
  exact (X20_non_object_answer_raises (fun _ => EmptyString)
           answers_with_array "I met Sarah" (JArr []) H1 H2).
Defined.

(** X21: the save tool reports trouble saving only for an answer that is
    an object without a true [success] and with a [confidence] that is a
    number or boolean not below 0.7. *)
Theorem X21_trouble_saving_needs_confidence (repr : json -> string)
    (post : Http) (memory_text : string) :
  _save_memory_tool repr post memory_text = Returned trouble_saving_response ->
  exists items confidence,
    _capture_memory post memory_text = JObj items
    /\ json_truthy (default JNull (PyDict.get "success" items)) = false
    /\ PyDict.get "confidence" items = Some confidence
    /\ json_lt confidence 0.7 = Returned false.
Proof.
  unfold _save_memory_tool.
  destruct (_capture_memory post memory_text) as [| | | | |items];
    try discriminate.
  cbn [json_get and_then].
  destruct (json_truthy (default JNull (PyDict.get "success" items))) eqn:Hs.
  - cbn. intros [=].
  - destruct (PyDict.get "confidence" items) as [confidence|] eqn:Hc.
    + cbn [default from_option id].
      destruct (json_lt confidence 0.7) as [[|]|] eqn:Hlt; cbn [and_then];
        try discriminate.
      intros _. now exists items, confidence.
    + cbn. discriminate.
Qed.

Lemma X21_trouble_saving_needs_confidence_witness :
  _save_memory_tool (fun _ => EmptyString) answers_confident_failure
    "I met Sarah"
  = Returned trouble_saving_response
  /\ exists items confidence,
       _capture_memory answers_confident_failure "I met Sarah" = JObj items
       /\ json_truthy (default JNull (PyDict.get "success" items)) = false
       /\ PyDict.get "confidence" items = Some confidence
       /\ json_lt confidence 0.7 = Returned false.
Proof.
  assert (H : _save_memory_tool (fun _ => EmptyString)
                answers_confident_failure "I met Sarah"
              = Returned trouble_saving_response) by reflexivity.
  split; [exact H|].
  exact (X21_trouble_saving_needs_confidence (fun _ => EmptyString)
           answers_confident_failure "I met Sarah" H).
Defined.

(** ** The blank query and the unnamed contacts *)

(** C2, as the code has it: a query that is empty or only whitespace is not
    rejected. The expander turns it into the single empty variant; that
    variant is sent to the embedding service and, when the embedding
    returns, its vector is sent to the index for 10 neighbours; the
    contacts merged from the matches of that one query are returned and
    are the ones the tool formats. For no contacts the response is the
    usual apology, naming the query as given. *)
Theorem C2_blank_query_is_searched (sv : Services) (query : string) :
  PyStr.all_space query = true ->
  let calls :=
    CallEmbed EmptyString
    :: match embeddings_create sv EmptyString with
       | Some q_emb => [CallQuery q_emb 10]
       | None => []
       end in
  let found :=
    match variation_matches sv 5 EmptyString with
    | Some matches =>
        fold_left (process_match query EmptyString) matches
          (initial_state query)
    | None => initial_state query
    end in
  let contacts :=
    slice_to (sort_by_score_desc (PyDict.values (all_contacts found))) 5 in
  _preprocess_query query = [EmptyString]
  /\ _search_contacts sv query 5 [] = (Returned contacts, calls)
  /\ _search_contacts_tool sv query []
     = (Returned (_format_contact_response contacts query), calls)
  /\ _format_contact_response [] query = no_matches_response query.
Proof.
  intros Hq calls found contacts.
  pose proof (preprocess_query_all_space _ Hq) as Hp.
  assert (Hrun : _search_contacts sv query 5 [] = (Returned contacts, calls)).
  { rewrite search_contacts_trace, Hp. f_equal.
    - f_equal. unfold search_result, merged, successful_results.
      rewrite Hp. cbn [omap list_omap]. subst contacts found.
      now destruct (variation_matches sv 5 EmptyString).
    - cbn [flat_map]. rewrite app_nil_r. subst calls.
      unfold trace_of_variation.
      now destruct (embeddings_create sv EmptyString). }
  split; [exact Hp|]. split; [exact Hrun|]. split.
  - unfold _search_contacts_tool, bind. now rewrite Hrun.
  - unfold _format_contact_response, format_no_contacts.
    rewrite (suggestions_for_all_space _ Hq). unfold no_matches_response.
    now rewrite !string_app_assoc.
Qed.

Lemma C2_blank_query_is_searched_witness :
  PyStr.all_space "   " = true
  /\ (_preprocess_query "   " = [EmptyString]
      /\ _search_contacts (one_match_services "Al" 0.27) "   " 5 []
         = (Returned [al_contact], [CallEmbed EmptyString; CallQuery [] 10])
      /\ _search_contacts_tool (one_match_services "Al" 0.27) "   " []
         = (Returned "I found Al.", [CallEmbed EmptyString; CallQuery [] 10])
      /\ _format_contact_response [] "   " = no_matches_response "   ").
Proof.
  split; [reflexivity|].
  apply (C2_blank_query_is_searched (one_match_services "Al" 0.27) "   ").
  reflexivity.
Defined.

(** C10, evaluated where it fails: the index answers the query "hr",
    which has no other variant, with two matches without a name, of score
    0.5004 (title "Lead") and then 0.5002 (title "Intern"). One unnamed
    contact is returned, and it is the one made from the match of the
    lower score: the first is stored with the rounded score 0.5, the
    second is compared unrounded, 0.5 >= 0.5002 fails, and it replaces
    the first. *)
Theorem C10_unnamed_entry_from_lower_scoring_match :
  _preprocess_query "hr" = ["hr"]
  /\ variation_matches two_unnamed_services 5 "hr"
     = Some [unnamed_lead; unnamed_intern]
  /\ md_get unnamed_lead "name" = EmptyString
  /\ md_get unnamed_intern "name" = EmptyString
  /\ (match_score unnamed_intern < match_score unnamed_lead)%Q
  /\ fst (_search_contacts two_unnamed_services "hr" 5 [])
     = Returned [make_contact "hr" unnamed_intern]
  /\ title (make_contact "hr" unnamed_intern) = "Intern".
Proof. repeat split; vm_compute; reflexivity. Qed.
